(** * pro-data-analysis: the query-safety and introspection scripts

  A shallow embedding of [scripts/db_connector.py],
  [scripts/run_query_safe.py], [scripts/explain_query.py] and
  [scripts/find_relationships.py], of [get_sample] of
  [scripts/sample_data.py] and of [_pct_missing_bin] of
  [scripts/report_missing_column_comments.py], and the properties of the
  design document checked against it.

  Conventions of the embedding.
  - A Python [str] is a [string]; the model is exact on ASCII text.  A
    character above 127 is kept as it is: it is neither whitespace nor a
    word character and [upper]/[lower] leave it unchanged (the messages of
    the plan analyzers hold their Vietnamese text as UTF-8 bytes).
  - A Python [int] is a [Z]; [str(n)] is stdpp's [pretty].
  - A [dict] with string keys is a [gmap string _], a [set] of strings a
    [gset string] iterated in the order of [elements].
  - Code that talks to the database runs in the monad [M]: it threads the
    trace of driver calls made so far and stops at the first exception. *)

From Stdlib Require Import ZArith Ascii QArith.
From stdpp Require Import gmap strings list pretty sorting.

Local Open Scope Z_scope.

(** ** Python string primitives *)

Module PyStr.

Definition code (c : ascii) : N := N_of_ascii c.

Definition between (lo hi : N) (c : ascii) : bool :=
  ((lo <=? code c) && (code c <=? hi))%N.

(** [str.isspace] on one ASCII character: TAB, LF, VT, FF, CR, the four
    separators FS GS RS US, and the space.  [\s] of [re] is the same set. *)
Definition is_space (c : ascii) : bool :=
  between 9 13 c || between 28 31 c || (code c =? 32)%N.

Definition is_digit (c : ascii) : bool := between 48 57 c.
Definition is_lower (c : ascii) : bool := between 97 122 c.
Definition is_upper (c : ascii) : bool := between 65 90 c.

(** [\w] of [re]: letters, digits and the underscore. *)
Definition is_word (c : ascii) : bool :=
  is_lower c || is_upper c || is_digit c || (code c =? 95)%N.

Definition upper_char (c : ascii) : ascii :=
  if is_lower c then ascii_of_N (code c - 32) else c.
Definition lower_char (c : ascii) : ascii :=
  if is_upper c then ascii_of_N (code c + 32) else c.

Fixpoint map_chars (f : ascii → ascii) (s : string) : string :=
  match s with
  | "" => ""
  | String c s' => String (f c) (map_chars f s')
  end.

Definition upper : string → string := map_chars upper_char.
Definition lower : string → string := map_chars lower_char.

Definition is_empty (s : string) : bool :=
  match s with "" => true | _ => false end.

(** Every character of [s] satisfies [p]. *)
Fixpoint all_chars (p : ascii → bool) (s : string) : bool :=
  match s with
  | "" => true
  | String c s' => p c && all_chars p s'
  end.

(** [s.lstrip(chars)] and [s.rstrip(chars)], the character set given as a
    predicate; [s.strip()] and friends take [is_space]. *)
Fixpoint lstrip_with (p : ascii → bool) (s : string) : string :=
  match s with
  | "" => ""
  | String c s' => if p c then lstrip_with p s' else s
  end.

Fixpoint rstrip_with (p : ascii → bool) (s : string) : string :=
  match s with
  | "" => ""
  | String c s' =>
      let r := rstrip_with p s' in
      if is_empty r && p c then "" else String c r
  end.

Definition one_of (chars : string) (c : ascii) : bool :=
  negb (all_chars (λ d, negb (Ascii.eqb c d)) chars).

Definition lstrip (s : string) : string := lstrip_with is_space s.
Definition rstrip (s : string) : string := rstrip_with is_space s.
Definition strip (s : string) : string := lstrip (rstrip s).
Definition lstrip_chars (chars s : string) : string :=
  lstrip_with (one_of chars) s.
Definition rstrip_chars (chars s : string) : string :=
  rstrip_with (one_of chars) s.

(** [s.split()]: the maximal runs of non-whitespace characters.  The
    helper returns the word that starts at the head of [s] (empty when [s]
    starts with whitespace) and the words after it. *)
Definition cons_word (w : string) (ws : list string) : list string :=
  if is_empty w then ws else w :: ws.

Fixpoint split_go (s : string) : string * list string :=
  match s with
  | "" => ("", [])
  | String c s' =>
      let '(w, ws) := split_go s' in
      if is_space c then ("", cons_word w ws) else (String c w, ws)
  end.

Definition split (s : string) : list string :=
  let '(w, ws) := split_go s in cons_word w ws.

Definition startswith (s pre : string) : bool := String.prefix pre s.

Definition endswith (s suf : string) : bool :=
  String.prefix (String.rev suf) (String.rev s).

(** [needle in hay] on strings. *)
Fixpoint contains (needle hay : string) : bool :=
  String.prefix needle hay ||
  match hay with
  | "" => false
  | String _ hay' => contains needle hay'
  end.

(** [sep.join(ls)]. *)
Definition join (sep : string) (ls : list string) : string :=
  String.concat sep ls.

(** [s in (a, b, ...)] for a tuple of strings. *)
Definition str_in (s : string) (l : list string) : bool :=
  bool_decide (s ∈ l).

(** [int(s)] on a run of decimal digits. *)
Definition digit_value (c : ascii) : Z := Z.of_N (code c) - 48.

Fixpoint int_of_digits_go (acc : Z) (s : string) : Z :=
  match s with
  | "" => acc
  | String c s' => int_of_digits_go (10 * acc + digit_value c) s'
  end.

Definition int_of_digits : string → Z := int_of_digits_go 0.

(** [f"{n:,}"]: decimal digits in groups of three, for [0 <= n]. *)
Fixpoint group3 (rev_digits : string) (k : nat) : string :=
  match rev_digits with
  | "" => ""
  | String c s' =>
      match k with
      | O => String "," (String c (group3 s' 2))
      | S k' => String c (group3 s' k')
      end
  end.

Definition format_thousands (n : Z) : string :=
  match String.rev (pretty (Z.abs n)) with
  | "" => ""
  | String c s' =>
      (if n <? 0 then "-" else "") +:+ String.rev (String c (group3 s' 2))
  end.

End PyStr.

(** ** The fragment of Python's [re] the scripts use

  A backtracking matcher in continuation-passing style.  Repetition is
  only ever applied to a character class in the patterns of the scripts,
  so [RStar] and [RLazy] take a class.  A pattern has at most one capture
  group.  The matcher keeps the character before the current position,
  which [\b] needs. *)

Module Re.
Import PyStr.

Inductive regex : Type :=
| RChar (p : ascii → bool)      (* one character of a class *)
| RStar (p : ascii → bool)      (* [p]*, greedy *)
| RLazy (p : ascii → bool)      (* [p]*?, lazy *)
| RBound                        (* \b *)
| RGroup (r : regex)            (* ( r ) *)
| RSeq (r1 r2 : regex)
| REps.

Definition RPlus (p : ascii → bool) : regex := RSeq (RChar p) (RStar p).

Fixpoint lit (s : string) : regex :=
  match s with
  | "" => REps
  | String c s' => RSeq (RChar (Ascii.eqb c)) (lit s')
  end.

Definition any_char : ascii → bool := λ _, true.          (* . with DOTALL *)
Definition not_newline (c : ascii) : bool := negb (code c =? 10)%N.
Definition non_space (c : ascii) : bool := negb (is_space c).        (* \S *)
Definition digit_or_dot (c : ascii) : bool := is_digit c || (code c =? 46)%N.

(** What a successful match yields: the text of the group (when the
    pattern has one and it took part) and the text after the match. *)
Definition outcome : Type := option string * string.

Definition cont : Type := option ascii → string → option string → option outcome.

Definition word_before (prev : option ascii) : bool :=
  match prev with Some c => is_word c | None => false end.
Definition word_after (s : string) : bool :=
  match s with String c _ => is_word c | "" => false end.

Fixpoint star_greedy (p : ascii → bool) (k : option ascii → string → option outcome)
    (prev : option ascii) (s : string) : option outcome :=
  match s with
  | String c s' =>
      if p c then
        match star_greedy p k (Some c) s' with
        | Some r => Some r
        | None => k prev s
        end
      else k prev s
  | "" => k prev ""
  end.

Fixpoint star_lazy (p : ascii → bool) (k : option ascii → string → option outcome)
    (prev : option ascii) (s : string) : option outcome :=
  match k prev s with
  | Some r => Some r
  | None =>
      match s with
      | String c s' => if p c then star_lazy p k (Some c) s' else None
      | "" => None
      end
  end.

(** The text consumed between position [s] and the later position [s']. *)
Definition consumed (s s' : string) : string :=
  String.substring 0 (String.length s - String.length s') s.

Fixpoint run (r : regex) (k : cont) (prev : option ascii) (s : string)
    (cap : option string) : option outcome :=
  match r with
  | RChar p =>
      match s with
      | String c s' => if p c then k (Some c) s' cap else None
      | "" => None
      end
  | RStar p => star_greedy p (λ pv s', k pv s' cap) prev s
  | RLazy p => star_lazy p (λ pv s', k pv s' cap) prev s
  | RBound => if xorb (word_before prev) (word_after s) then k prev s cap else None
  | RGroup r' => run r' (λ pv s' _, k pv s' (Some (consumed s s'))) prev s cap
  | RSeq r1 r2 => run r1 (λ pv s' cap', run r2 k pv s' cap') prev s cap
  | REps => k prev s cap
  end.

(** A match of [r] that starts exactly at the head of [s]. *)
Definition match_at (r : regex) (prev : option ascii) (s : string) : option outcome :=
  run r (λ _ s' cap, Some (cap, s')) prev s None.

(** [re.search(r, s)] as a truth value: is there a match anywhere? *)
Fixpoint search_from (r : regex) (prev : option ascii) (s : string) : bool :=
  match match_at r prev s with
  | Some _ => true
  | None =>
      match s with
      | String c s' => search_from r (Some c) s'
      | "" => false
      end
  end.

Definition search (r : regex) (s : string) : bool := search_from r None s.

(** The scanners walk the text one character at a time; after a match that
    consumed [n] characters they skip the [n - 1] that follow its first
    one, so that matches do not overlap.  No pattern of the scripts matches
    the empty string. *)
Definition skip_after (s rest : string) : nat :=
  pred (String.length s - String.length rest)%nat.

(** [re.findall(r, s)] for a pattern with one group: the group of every
    match, left to right. *)
Fixpoint findall_from (r : regex) (prev : option ascii) (s : string)
    (skip : nat) : list string :=
  match skip with
  | S n =>
      match s with
      | String c s' => findall_from r (Some c) s' n
      | "" => []
      end
  | O =>
      match match_at r prev s with
      | Some (cap, rest) =>
          default (consumed s rest) cap ::
          match s with
          | String c s' => findall_from r (Some c) s' (skip_after s rest)
          | "" => []
          end
      | None =>
          match s with
          | String c s' => findall_from r (Some c) s' O
          | "" => []
          end
      end
  end.

Definition findall (r : regex) (s : string) : list string :=
  findall_from r None s O.

(** [re.sub(r, '', s)]: every match removed. *)
Fixpoint remove_from (r : regex) (prev : option ascii) (s : string)
    (skip : nat) : string :=
  match skip with
  | S n =>
      match s with
      | String c s' => remove_from r (Some c) s' n
      | "" => ""
      end
  | O =>
      match match_at r prev s with
      | Some (_, rest) =>
          match s with
          | String c s' => remove_from r (Some c) s' (skip_after s rest)
          | "" => ""
          end
      | None =>
          match s with
          | String c s' => String c (remove_from r (Some c) s' O)
          | "" => ""
          end
      end
  end.

Definition remove_all (r : regex) (s : string) : string :=
  remove_from r None s O.

End Re.

(** ** Values, exceptions and the database driver *)

Module Py.

(** A value fetched from a cursor or held in a result: [None], a [str],
    an [int], or any other object, given by its [str()] and its truth
    value. *)
Inductive pyval : Type :=
| PNone
| PStr (s : string)
| PInt (n : Z)
| POther (repr : string) (truth : bool).

Definition py_str (v : pyval) : string :=
  match v with
  | PNone => "None"
  | PStr s => s
  | PInt n => pretty n
  | POther repr _ => repr
  end.

Definition truthy (v : pyval) : bool :=
  match v with
  | PNone => false
  | PStr s => negb (PyStr.is_empty s)
  | PInt n => negb (n =? 0)
  | POther _ t => t
  end.

Definition row : Type := list pyval.

Inductive exn : Type :=
| ValueError (msg : string)
| KeyError (key : string)
| IndexError
| TypeError
| DriverError (msg : string).

(** The parameters of [cursor.execute]: none, a dict of named binds
    (Oracle) or a tuple of positional ones. *)
Inductive params : Type :=
| NoParams
| Named (binds : list (string * pyval))
| Positional (binds : list pyval).

(** The calls a script makes on the database driver. *)
Inductive call : Type :=
| Connect (db_type db_alias : string)
| Close
| Cursor
| Execute (sql : string) (ps : params)
| FetchAll
| FetchOne
| Commit.

(** The world a script runs in: the process environment and what the
    driver answers, which may depend on every call made before.  The
    per-dialect connectors of [db_connector] (credentials read from the
    environment, then the driver's [connect]) are the field [connecting];
    [conn.close()] and [conn.cursor()] are taken to succeed.  [float_gt]
    stands for [float(c) > 100000] on the text [c], [None] when [float]
    raises; clock readings are in hundredths of a millisecond. *)
Record world : Type := World {
  environ : gmap string string;
  connecting : string → string → option exn;
  executing : list call → string → params → option exn;
  fetching_all : list call → exn + list row;
  fetching_one : list call → exn + option row;
  describing : list call → option (list row);
  committing : list call → option exn;
  clock : list call → Z;
  uuid4_hex : list call → string;
  json_loads : pyval → exn + pyval;
  float_gt : string → option bool;
}.

(** Computations: read the world, extend the trace of calls, stop at the
    first exception. *)
Definition M (A : Type) : Type := world → list call → (exn + A) * list call.

Definition ret {A} (a : A) : M A := λ _ tr, (inr a, tr).
Definition raise {A} (e : exn) : M A := λ _ tr, (inl e, tr).
Definition bind {A B} (m : M A) (f : A → M B) : M B :=
  λ w tr,
    match m w tr with
    | (inr a, tr') => f a w tr'
    | (inl e, tr') => (inl e, tr')
    end.
Definition lift {A} (r : exn + A) : M A := λ _ tr, (r, tr).
Definition ask : M world := λ w tr, (inr w, tr).
Definition calls_so_far : M (list call) := λ _ tr, (inr tr, tr).
Definition emit (c : call) : M unit := λ _ tr, (inr tt, tr ++ [c]).

#[global] Instance M_ret : MRet M := @ret.
#[global] Instance M_bind : MBind M := λ A B f m, bind m f.

(** [try: body finally: cleanup]. *)
Definition finally {A} (body : M A) (cleanup : M unit) : M A :=
  λ w tr,
    let '(r, tr1) := body w tr in
    match cleanup w tr1 with
    | (inr _, tr2) => (r, tr2)
    | (inl e, tr2) => (inl e, tr2)
    end.

(** [try: body except Exception: pass]. *)
Definition swallow (body : M unit) : M unit :=
  λ w tr,
    match body w tr with
    | (inr _, tr') => (inr tt, tr')
    | (inl _, tr') => (inr tt, tr')
    end.

Fixpoint for_each {A B} (l : list A) (f : A → M (list B)) : M (list B) :=
  match l with
  | [] => ret []
  | a :: l' => bs ← f a; bs' ← for_each l' f; ret (bs ++ bs')
  end.

Definition fail_with {A} (o : option exn) (a : A) : M A :=
  match o with Some e => raise e | None => ret a end.

(** The driver calls. *)
Definition connect (db_type db_alias : string) : M unit :=
  w ← ask; emit (Connect db_type db_alias);;
  fail_with (connecting w db_type db_alias) tt.
Definition close : M unit := emit Close.
Definition cursor : M unit := emit Cursor.
Definition execute (sql : string) (ps : params) : M unit :=
  w ← ask; tr ← calls_so_far; emit (Execute sql ps);;
  fail_with (executing w tr sql ps) tt.
Definition fetchall : M (list row) :=
  w ← ask; emit FetchAll ;; tr ← calls_so_far; lift (fetching_all w tr).
Definition fetchone : M (option row) :=
  w ← ask; emit FetchOne ;; tr ← calls_so_far; lift (fetching_one w tr).
Definition commit : M unit :=
  w ← ask; emit Commit ;; tr ← calls_so_far; fail_with (committing w tr) tt.
Definition description : M (option (list row)) :=
  w ← ask; tr ← calls_so_far; ret (describing w tr).
Definition time_time : M Z :=
  w ← ask; tr ← calls_so_far; ret (clock w tr).

(** [r[i]] on a fetched row. *)
Definition item (r : row) (i : nat) : exn + pyval :=
  match r !! i with Some v => inr v | None => inl IndexError end.

(** A fetched cell that the script goes on to use as a [str]: catalog
    names and plan lines are character data; anything else is outside the
    model and rejected here. *)
Definition text (v : pyval) : exn + string :=
  match v with PStr s => inr s | _ => inl TypeError end.

Definition text_item (r : row) (i : nat) : exn + string :=
  match item r i with inl e => inl e | inr v => text v end.

Definition and_then {A B} (r : exn + A) (f : A → exn + B) : exn + B :=
  match r with
  | inl e => inl e
  | inr a => f a
  end.

(** A list comprehension whose element expression may raise. *)
Fixpoint comprehension {A B} (f : A → exn + B) (l : list A) : exn + list B :=
  match l with
  | [] => inr []
  | a :: l' =>
      match f a with
      | inl e => inl e
      | inr b =>
          match comprehension f l' with
          | inl e => inl e
          | inr bs => inr (b :: bs)
          end
      end
  end.

End Py.

(** ** scripts/db_connector.py *)

Module db_connector.
Import PyStr Re Py.

Definition dialects : list string := ["oracle"; "mysql"; "postgresql"; "sqlserver"].

Definition expected_one_of : string :=
  "Expected one of: oracle, mysql, postgresql, sqlserver".

(** [get_db_type(db_alias)], on the process environment. *)
Definition get_db_type (env : gmap string string) (db_alias : string) : exn + string :=
  let db_type := strip (lower (default "" (env !! (db_alias +:+ "_TYPE")))) in
  if is_empty db_type then
    (* Legacy fallback: if DWH alias and no TYPE var, assume oracle *)
    if String.eqb (upper db_alias) "DWH" then inr "oracle"
    else inl (ValueError ("Environment variable " +:+ db_alias +:+
                          "_TYPE is not set. " +:+ expected_one_of))
  else if negb (str_in db_type dialects) then
    inl (ValueError (db_alias +:+ "_TYPE='" +:+ db_type +:+
                     "' is not supported. " +:+ expected_one_of))
  else inr db_type.

(** [with get_connection(db_alias) as conn: body]: resolve the dialect,
    connect, run the body, close on every way out of it. *)
Definition get_connection {A} (db_alias : string) (body : M A) : M A :=
  w ← ask;
  db_type ← lift (get_db_type (environ w) db_alias);
  connect db_type db_alias;;
  finally body close.

Definition blocked : list string :=
  ["INSERT"; "UPDATE"; "DELETE"; "DROP"; "ALTER"; "CREATE";
   "TRUNCATE"; "MERGE"; "GRANT"; "REVOKE"; "EXEC"; "EXECUTE";
   "CALL"; "BEGIN"; "DECLARE"].

Definition allowed : list string := ["SELECT"; "WITH"; "EXPLAIN"].

(** [--[^\n]*], [/\*.*?\*/] with DOTALL, and [\b{kw}\b]. *)
Definition line_comment : regex := RSeq (lit "--") (RStar not_newline).
Definition block_comment : regex :=
  RSeq (lit "/*") (RSeq (RLazy any_char) (lit "*/")).
Definition keyword (kw : string) : regex := RSeq RBound (RSeq (lit kw) RBound).

(** The first three statements of [is_select_only]: comments stripped,
    trimmed, uppercased. *)
Definition cleaned (sql : string) : string :=
  upper (strip (remove_all block_comment (remove_all line_comment sql))).

(** [cleaned.split()[0] if cleaned.split() else ""]. *)
Definition first_word (text : string) : string :=
  match split text with
  | w :: _ => w
  | [] => ""
  end.

Definition is_select_only (sql : string) : bool :=
  let c := cleaned sql in
  if str_in (first_word c) blocked then false
  else if existsb (λ kw, search (keyword kw) c) blocked then false
  else str_in (first_word c) allowed.

Definition _wrap_with_limit (sql : string) (limit : Z) (db_type : string) : string :=
  let sql_stripped := rstrip_chars ";" (rstrip sql) in
  if String.eqb db_type "oracle" then
    "SELECT * FROM (" +:+ sql_stripped +:+ ") WHERE ROWNUM <= " +:+ pretty limit
  else if String.eqb db_type "mysql" then
    "SELECT * FROM (" +:+ sql_stripped +:+ ") AS _limited LIMIT " +:+ pretty limit
  else if String.eqb db_type "postgresql" then
    "SELECT * FROM (" +:+ sql_stripped +:+ ") AS _limited LIMIT " +:+ pretty limit
  else if String.eqb db_type "sqlserver" then
    "SELECT TOP " +:+ pretty limit +:+ " * FROM (" +:+ sql_stripped +:+ ") AS _limited"
  else sql_stripped.



Definition get_param_style (db_type : string) : string :=
  if String.eqb db_type "oracle" then ":param"
  else if String.eqb db_type "mysql" then "%s"
  else if String.eqb db_type "postgresql" then "%s"
  else if String.eqb db_type "sqlserver" then "?"
  else "?".



Record connection := { alias : string; db_type : string }.





(** The order of [sorted(connections, key=lambda x: x["alias"])]: strings
    compare by code point, which on UTF-8 bytes is the order of the bytes. *)
Definition by_alias (x y : connection) : Prop :=
  String.leb (alias x) (alias y) = true.

#[export] Instance by_alias_dec (x y : connection) : Decision (by_alias x y).
Proof. unfold by_alias. apply _. Defined.


End db_connector.

(** ** scripts/run_query_safe.py *)

Module run_query_safe.
Import PyStr Py.
Import db_connector (get_db_type, get_connection, is_select_only).

(** The dict that [run_query] returns.  [total_rows] is present only in
    the answer to a count, [row_limit] only otherwise;
    [execution_time_ms] is in hundredths of a millisecond. *)
Record result : Type := Result {
  columns : list pyval;
  rows : list (list pyval);
  row_count : Z;
  total_rows : option pyval;
  execution_time_ms : Z;
  truncated : bool;
  row_limit : option Z;
}.

Definition _wrap_with_limit (sql : string) (limit : Z) (db_type : string) : string :=
  let sql_clean := rstrip_chars ";" (rstrip sql) in
  if String.eqb db_type "oracle" then
    "SELECT * FROM (" +:+ sql_clean +:+ ") WHERE ROWNUM <= " +:+ pretty limit
  else if str_in db_type ["mysql"; "postgresql"] then
    "SELECT * FROM (" +:+ sql_clean +:+ ") AS _limited LIMIT " +:+ pretty limit
  else if String.eqb db_type "sqlserver" then
    "SELECT TOP " +:+ pretty limit +:+ " * FROM (" +:+ sql_clean +:+ ") AS _limited"
  else sql_clean.

(** The timeout directive issued before the statement. *)
Definition set_timeout (db_type : string) (timeout : Z) : M unit :=
  if String.eqb db_type "mysql" then
    execute ("SET SESSION MAX_EXECUTION_TIME = " +:+ pretty (timeout * 1000)) NoParams
  else if String.eqb db_type "postgresql" then
    execute ("SET statement_timeout = '" +:+ pretty (timeout * 1000) +:+ "'") NoParams
  else mret tt.

Definition count_sql (sql db_type : string) : string :=
  if String.eqb db_type "oracle" then "SELECT COUNT(*) FROM (" +:+ sql +:+ ")"
  else if String.eqb db_type "sqlserver" then
    "SELECT COUNT(*) FROM (" +:+ sql +:+ ") AS count_wrapper"
  else "SELECT COUNT(*) FROM (" +:+ sql +:+ ") count_wrapper".

Definition _count_query (sql db_type : string) (timeout : Z) : M result :=
  set_timeout db_type timeout;;
  start ← time_time;
  execute (count_sql sql db_type) NoParams;;
  r ← fetchone;
  count ← lift (match r with Some r => item r 0 | None => inl TypeError end);
  stop ← time_time;
  mret {| columns := [PStr "COUNT"]; rows := [[count]]; row_count := 1;
          total_rows := Some count; execution_time_ms := stop - start;
          truncated := false; row_limit := None |}.

Definition not_read_only : string :=
  "CHỈ cho phép SELECT/WITH statements.
Các lệnh INSERT/UPDATE/DELETE/DROP/ALTER/... bị chặn vì lý do an toàn.".

(** The statement as [run_query] classifies and runs it. *)
Definition normalized (sql : string) : string := rstrip_chars ";" (strip sql).

Definition run_query (sql db_alias : string) (row_limit timeout_seconds : Z)
    (count_only : bool) : M result :=
  let sql := normalized sql in
  if negb (is_select_only sql) then raise (ValueError not_read_only)
  else
    w ← ask;
    db_type ← lift (get_db_type (environ w) db_alias);
    get_connection db_alias (
      cursor;;
      if count_only then _count_query sql db_type timeout_seconds
      else
        set_timeout db_type timeout_seconds;;
        let wrapped := _wrap_with_limit sql row_limit db_type in
        start ← time_time;
        execute wrapped NoParams;;
        rows ← fetchall;
        stop ← time_time;
        d ← description;
        columns ← lift (match d with
                        | Some ((_ :: _) as ds) => comprehension (λ desc, item desc 0) ds
                        | _ => inr []
                        end);
        mret {| columns := columns; rows := rows;
                row_count := Z.of_nat (length rows);
                total_rows := None; execution_time_ms := stop - start;
                truncated := bool_decide (row_limit ≤ Z.of_nat (length rows));
                row_limit := Some row_limit |}).

End run_query_safe.

(** ** scripts/explain_query.py *)

Module explain_query.
Import PyStr Re Py.
Import db_connector (get_db_type, get_connection, is_select_only).

Inductive severity : Type := OK | INFO | WARNING | CRITICAL.

Inductive kind : Type :=
| FULL_TABLE_SCAN | CARTESIAN_PRODUCT | HASH_JOIN | HIGH_COST | FILESORT
| TEMP_TABLE | NESTED_LOOP_HIGH_COST | NESTED_LOOPS | SORT_OPERATION | NO_ISSUES.

(** One entry of the issue list: the dict with the keys [severity],
    [type] and [message]. *)
Record issue : Type := Issue {
  issue_severity : severity;
  issue_type : kind;
  message : string;
}.

#[global] Instance severity_eq_dec : EqDecision severity.
Proof. solve_decision. Defined.
#[global] Instance kind_eq_dec : EqDecision kind.
Proof. solve_decision. Defined.
#[global] Instance issue_eq_dec : EqDecision issue.
Proof. solve_decision. Defined.

(** [if not issues: issues.append(fallback)], the last step of every
    analyzer. *)
Definition or_no_issues (fallback : issue) (issues : list issue) : list issue :=
  match issues with
  | [] => [fallback]
  | _ :: _ => issues
  end.

Definition no_issues_long : issue :=
  Issue OK NO_ISSUES "Không phát hiện vấn đề rõ ràng trong execution plan.".
Definition no_issues_short : issue :=
  Issue OK NO_ISSUES "Không phát hiện vấn đề rõ ràng.".

Fixpoint seq_of (rs : list regex) : regex :=
  match rs with
  | [] => REps
  | [r] => r
  | r :: rs' => RSeq r (seq_of rs')
  end.

(** *** Oracle *)

(** [TABLE ACCESS FULL\s*\|\s*(\S+)] and [\|\s*(\d+)\s*\|]. *)
Definition table_access_full : regex :=
  seq_of [lit "TABLE ACCESS FULL"; RStar is_space; lit "|"; RStar is_space;
          RGroup (RPlus non_space)].
Definition cost_cell : regex :=
  seq_of [lit "|"; RStar is_space; RGroup (RPlus is_digit); RStar is_space; lit "|"].

Definition oracle_full_scan (t : string) : issue :=
  Issue WARNING FULL_TABLE_SCAN
    ("Full Table Scan trên bảng " +:+ t +:+
     ". Cân nhắc thêm index hoặc filter partition.").

Definition oracle_full_scans (full_text : string) : list issue :=
  if contains "TABLE ACCESS FULL" full_text then
    oracle_full_scan <$> findall table_access_full full_text
  else [].

Definition oracle_cartesian (full_text : string) : list issue :=
  if contains "MERGE JOIN CARTESIAN" full_text then
    [Issue CRITICAL CARTESIAN_PRODUCT
       "Cartesian product detected! Kiểm tra lại JOIN conditions."]
  else [].

Definition oracle_hash_join (full_text : string) : list issue :=
  if contains "HASH JOIN" full_text then
    [Issue INFO HASH_JOIN
       "Hash Join detected. OK cho bảng lớn, nhưng kiểm tra memory."]
  else [].

(** [max(int(c) for c in cost_matches)] on a non-empty list. *)
Definition max_int (c : string) (cs : list string) : Z :=
  foldl (λ m c', Z.max m (int_of_digits c')) (int_of_digits c) cs.

Definition oracle_high_cost (full_text : string) : list issue :=
  match findall cost_cell full_text with
  | [] => []
  | c :: cs =>
      let max_cost := max_int c cs in
      if bool_decide (100000 < max_cost) then
        [Issue WARNING HIGH_COST
           ("Cost cao (" +:+ format_thousands max_cost +:+
            "). Cân nhắc tối ưu hóa query.")]
      else []
  end.

(** What the detection rules append, in the order of the source. *)
Definition oracle_findings (plan_lines : list string) : list issue :=
  let full_text := join "
" plan_lines in
  oracle_full_scans full_text ++ oracle_cartesian full_text ++
  oracle_hash_join full_text ++ oracle_high_cost full_text.

Definition _analyze_oracle_plan (plan_lines : list string) : list issue :=
  or_no_issues no_issues_long (oracle_findings plan_lines).

(** *** MySQL *)

Definition get (r : gmap string pyval) (key : string) (dflt : pyval) : pyval :=
  default dflt (r !! key).

Definition is_str (v : pyval) (s : string) : bool :=
  match v with PStr s' => String.eqb s' s | _ => false end.

Definition extra_mentions (r : gmap string pyval) (marker : string) : bool :=
  truthy (get r "Extra" PNone) && contains marker (py_str (get r "Extra" PNone)).

Definition mysql_row_findings (r : gmap string pyval) : list issue :=
  (if is_str (get r "type" PNone) "ALL" then
     [Issue WARNING FULL_TABLE_SCAN
        ("Full table scan trên " +:+ py_str (get r "table" PNone) +:+ " (" +:+
         py_str (get r "rows" (PStr "?")) +:+ " rows). Cần index.")]
   else []) ++
  (if extra_mentions r "Using filesort" then
     [Issue INFO FILESORT
        ("Filesort trên " +:+ py_str (get r "table" PNone) +:+
         ". Cân nhắc index cho ORDER BY.")]
   else []) ++
  (if extra_mentions r "Using temporary" then
     [Issue INFO TEMP_TABLE
        ("Temporary table trên " +:+ py_str (get r "table" PNone) +:+
         ". Cân nhắc tối ưu GROUP BY.")]
   else []).

Definition mysql_findings (rows : list (gmap string pyval)) : list issue :=
  rows ≫= mysql_row_findings.

Definition _analyze_mysql_plan (rows : list (gmap string pyval)) (plan_json : pyval)
    : list issue :=
  or_no_issues no_issues_short (mysql_findings rows).

(** *** PostgreSQL *)

(** [Seq Scan on (\S+)] and [Nested Loop.*?cost=[\d.]+\.\.([\d.]+)]. *)
Definition seq_scan_on : regex :=
  seq_of [lit "Seq Scan on "; RGroup (RPlus non_space)].
Definition nested_loop_cost : regex :=
  seq_of [lit "Nested Loop"; RLazy not_newline; lit "cost="; RPlus digit_or_dot;
          lit ".."; RGroup (RPlus digit_or_dot)].

Definition pg_seq_scans (full_text : string) : list issue :=
  if contains "Seq Scan" full_text then
    (λ t, Issue WARNING FULL_TABLE_SCAN
            ("Sequential Scan trên " +:+ t +:+ ". Cân nhắc thêm index."))
    <$> findall seq_scan_on full_text
  else [].

(** The loop over the costs of the nested loops; [float(c)] may raise. *)
Fixpoint pg_costly_loops (float_gt : string → option bool) (costs : list string)
    : exn + list issue :=
  match costs with
  | [] => inr []
  | c :: costs' =>
      match float_gt c with
      | None => inl (ValueError ("could not convert string to float: '" +:+ c +:+ "'"))
      | Some high =>
          match pg_costly_loops float_gt costs' with
          | inl e => inl e
          | inr found =>
              inr ((if high then
                      [Issue WARNING NESTED_LOOP_HIGH_COST
                         ("Nested Loop cost cao (" +:+ c +:+
                          "). Kiểm tra join conditions.")]
                    else []) ++ found)
          end
      end
  end.

Definition pg_nested_loops (float_gt : string → option bool) (full_text : string)
    : exn + list issue :=
  if contains "Nested Loop" full_text then
    pg_costly_loops float_gt (findall nested_loop_cost full_text)
  else inr [].

Definition pg_findings (float_gt : string → option bool) (plan_lines : list string)
    : exn + list issue :=
  let full_text := join "
" plan_lines in
  match pg_nested_loops float_gt full_text with
  | inl e => inl e
  | inr loops => inr (pg_seq_scans full_text ++ loops)
  end.

Definition _analyze_pg_plan (float_gt : string → option bool) (plan_lines : list string)
    : exn + list issue :=
  match pg_findings float_gt plan_lines with
  | inl e => inl e
  | inr found => inr (or_no_issues no_issues_short found)
  end.

(** *** SQL Server *)

Definition sqlserver_findings (plan_lines : list string) : list issue :=
  let full_text := join "
" plan_lines in
  (if contains "Table Scan" full_text || contains "Clustered Index Scan" full_text then
     [Issue WARNING FULL_TABLE_SCAN
        "Table Scan hoặc Clustered Index Scan detected. Cân nhắc thêm index."]
   else []) ++
  (if contains "Nested Loops" full_text then
     [Issue INFO NESTED_LOOPS
        "Nested Loops join detected. OK cho bảng nhỏ, kiểm tra nếu bảng lớn."]
   else []) ++
  (if contains "Hash Match" full_text then
     [Issue INFO HASH_JOIN
        "Hash Match join detected. Bình thường cho bảng lớn, kiểm tra memory."]
   else []) ++
  (if contains "Sort" full_text then
     [Issue INFO SORT_OPERATION
        "Sort operation detected. Cân nhắc index cho ORDER BY."]
   else []).

Definition _analyze_sqlserver_plan (plan_lines : list string) : list issue :=
  or_no_issues no_issues_long (sqlserver_findings plan_lines).

(** *** Plan retrieval *)

Inductive plan : Type :=
| PlanLines (lines : list pyval)
| PlanRows (rows : list (gmap string pyval)).

(** The dict that [explain_query] returns; [plan_json] is present for
    MySQL and PostgreSQL. *)
Record explained : Type := Explained {
  db_type : string;
  the_plan : plan;
  plan_json : option pyval;
  issues : list issue;
}.

(** [[r[0] for r in cursor.fetchall()]]. *)
Definition first_column : M (list pyval) :=
  rs ← fetchall; lift (comprehension (λ r, item r 0) rs).

(** The plan lines as the analyzers read them: ["\n".join] accepts only
    [str] items. *)
Definition as_lines (cells : list pyval) : M (list string) :=
  lift (comprehension text cells).

Definition _oracle_explain (sql : string) : M explained :=
  w ← ask; tr ← calls_so_far;
  let stmt_id := "agent_" +:+ String.substring 0 12 (uuid4_hex w tr) in
  execute ("EXPLAIN PLAN SET STATEMENT_ID = '" +:+ stmt_id +:+ "' FOR " +:+ sql) NoParams;;
  execute ("
        SELECT PLAN_TABLE_OUTPUT
        FROM TABLE(DBMS_XPLAN.DISPLAY('PLAN_TABLE', '" +:+ stmt_id +:+ "', 'ALL'))
    ") NoParams;;
  plan_lines ← first_column;
  swallow (execute ("DELETE FROM PLAN_TABLE WHERE STATEMENT_ID = '" +:+ stmt_id +:+ "'")
             NoParams;;
           commit);;
  lines ← as_lines plan_lines;
  mret {| db_type := "oracle"; the_plan := PlanLines plan_lines; plan_json := None;
          issues := _analyze_oracle_plan lines |}.

(** [dict(zip(columns, r))]: a later column of the same name wins. *)
Definition zip_dict (columns : list string) (r : row) : gmap string pyval :=
  list_to_map (reverse (zip columns r)).

Definition _mysql_explain (sql : string) : M explained :=
  w ← ask;
  execute ("EXPLAIN FORMAT=JSON " +:+ sql) NoParams;;
  row ← fetchone;
  plan_json ← lift (match row with
                    | Some ((_ :: _) as r) => and_then (item r 0) (json_loads w)
                    | _ => inr (POther "{}" false)
                    end);
  execute ("EXPLAIN " +:+ sql) NoParams;;
  d ← description;
  columns ← lift (match d with
                  | Some ds => comprehension (λ desc, and_then (item desc 0) text) ds
                  | None => inl TypeError
                  end);
  rs ← fetchall;
  let rows := zip_dict columns <$> rs in
  mret {| db_type := "mysql"; the_plan := PlanRows rows; plan_json := Some plan_json;
          issues := _analyze_mysql_plan rows plan_json |}.

Definition _pg_explain (sql : string) : M explained :=
  w ← ask;
  execute ("EXPLAIN (FORMAT TEXT, COSTS true, VERBOSE true) " +:+ sql) NoParams;;
  plan_lines ← first_column;
  execute ("EXPLAIN (FORMAT JSON, COSTS true) " +:+ sql) NoParams;;
  r ← fetchone;
  plan_json ← lift (match r with Some r => item r 0 | None => inl TypeError end);
  lines ← as_lines plan_lines;
  issues ← lift (_analyze_pg_plan (float_gt w) lines);
  mret {| db_type := "postgresql"; the_plan := PlanLines plan_lines;
          plan_json := Some plan_json; issues := issues |}.

Definition _sqlserver_explain (sql : string) : M explained :=
  execute "SET SHOWPLAN_TEXT ON" NoParams;;
  plan_lines ← finally (execute sql NoParams;; first_column)
                       (execute "SET SHOWPLAN_TEXT OFF" NoParams);
  lines ← as_lines plan_lines;
  mret {| db_type := "sqlserver"; the_plan := PlanLines plan_lines; plan_json := None;
          issues := _analyze_sqlserver_plan lines |}.

Definition _EXPLAIN_FUNCS : gmap string (string → M explained) :=
  {[ "oracle" := _oracle_explain; "mysql" := _mysql_explain;
     "postgresql" := _pg_explain; "sqlserver" := _sqlserver_explain ]}.

Definition not_read_only : string :=
  "Chỉ cho phép EXPLAIN trên SELECT/WITH statements.".

Definition explain_query (sql db_alias : string) : M explained :=
  if negb (is_select_only sql) then raise (ValueError not_read_only)
  else
    w ← ask;
    db_type ← lift (get_db_type (environ w) db_alias);
    func ← lift (match _EXPLAIN_FUNCS !! db_type with
                 | Some f => inr f
                 | None => inl (KeyError db_type)
                 end);
    get_connection db_alias (cursor;; func sql).

End explain_query.


(** ** scripts/find_relationships.py *)

Module find_relationships.
Import PyStr Py.
Import db_connector (get_db_type, get_connection).

(** The catalog statements, as the script sends them. *)

Definition sql_oracle_fk_outgoing : string := "
        SELECT
            c.CONSTRAINT_NAME,
            c.TABLE_NAME AS FK_TABLE,
            cc.COLUMN_NAME AS FK_COLUMN,
            r.TABLE_NAME AS PK_TABLE,
            rc.COLUMN_NAME AS PK_COLUMN,
            c.OWNER AS FK_SCHEMA,
            r.OWNER AS PK_SCHEMA
        FROM ALL_CONSTRAINTS c
        JOIN ALL_CONS_COLUMNS cc ON cc.CONSTRAINT_NAME = c.CONSTRAINT_NAME AND cc.OWNER = c.OWNER
        JOIN ALL_CONSTRAINTS r ON r.CONSTRAINT_NAME = c.R_CONSTRAINT_NAME AND r.OWNER = c.R_OWNER
        JOIN ALL_CONS_COLUMNS rc ON rc.CONSTRAINT_NAME = r.CONSTRAINT_NAME AND rc.OWNER = r.OWNER
            AND rc.POSITION = cc.POSITION
        WHERE c.CONSTRAINT_TYPE = 'R'
          AND c.OWNER = :schema AND c.TABLE_NAME = :tname
        ORDER BY c.CONSTRAINT_NAME, cc.POSITION
    ".

Definition sql_oracle_fk_incoming : string := "
        SELECT
            c.CONSTRAINT_NAME,
            c.TABLE_NAME AS FK_TABLE,
            cc.COLUMN_NAME AS FK_COLUMN,
            r.TABLE_NAME AS PK_TABLE,
            rc.COLUMN_NAME AS PK_COLUMN,
            c.OWNER AS FK_SCHEMA,
            r.OWNER AS PK_SCHEMA
        FROM ALL_CONSTRAINTS c
        JOIN ALL_CONS_COLUMNS cc ON cc.CONSTRAINT_NAME = c.CONSTRAINT_NAME AND cc.OWNER = c.OWNER
        JOIN ALL_CONSTRAINTS r ON r.CONSTRAINT_NAME = c.R_CONSTRAINT_NAME AND r.OWNER = c.R_OWNER
        JOIN ALL_CONS_COLUMNS rc ON rc.CONSTRAINT_NAME = r.CONSTRAINT_NAME AND rc.OWNER = r.OWNER
            AND rc.POSITION = cc.POSITION
        WHERE c.CONSTRAINT_TYPE = 'R'
          AND r.OWNER = :schema AND r.TABLE_NAME = :tname
        ORDER BY c.CONSTRAINT_NAME, cc.POSITION
    ".

Definition sql_oracle_columns : string := "
        SELECT COLUMN_NAME FROM ALL_TAB_COLUMNS
        WHERE OWNER = :schema AND TABLE_NAME = :tname
        ORDER BY COLUMN_ID
    ".

Definition sql_oracle_tables_like : string := "
            SELECT t.TABLE_NAME, t.OWNER
            FROM ALL_TABLES t
            WHERE t.OWNER = :schema
              AND (t.TABLE_NAME = :exact
                   OR t.TABLE_NAME LIKE :pattern
                   OR t.TABLE_NAME LIKE :pattern2)
        ".

Definition sql_oracle_pk_columns : string := "
                SELECT COLUMN_NAME FROM ALL_TAB_COLUMNS
                WHERE OWNER = :schema AND TABLE_NAME = :tname
                  AND COLUMN_NAME IN (:pk1, :pk2, :pk3)
            ".

Definition sql_mysql_fk_outgoing : string := "
        SELECT CONSTRAINT_NAME, TABLE_NAME, COLUMN_NAME,
               REFERENCED_TABLE_SCHEMA, REFERENCED_TABLE_NAME, REFERENCED_COLUMN_NAME
        FROM INFORMATION_SCHEMA.KEY_COLUMN_USAGE
        WHERE TABLE_SCHEMA = %s AND TABLE_NAME = %s
          AND REFERENCED_TABLE_NAME IS NOT NULL
        ORDER BY CONSTRAINT_NAME, ORDINAL_POSITION
    ".

Definition sql_mysql_fk_incoming : string := "
        SELECT CONSTRAINT_NAME, TABLE_SCHEMA, TABLE_NAME, COLUMN_NAME,
               REFERENCED_COLUMN_NAME
        FROM INFORMATION_SCHEMA.KEY_COLUMN_USAGE
        WHERE REFERENCED_TABLE_SCHEMA = %s AND REFERENCED_TABLE_NAME = %s
        ORDER BY CONSTRAINT_NAME, ORDINAL_POSITION
    ".

Definition sql_pg_fk : string := "
        SELECT
            tc.constraint_name,
            kcu.table_schema AS fk_schema, kcu.table_name AS fk_table, kcu.column_name AS fk_column,
            ccu.table_schema AS pk_schema, ccu.table_name AS pk_table, ccu.column_name AS pk_column
        FROM information_schema.table_constraints tc
        JOIN information_schema.key_column_usage kcu
            ON tc.constraint_name = kcu.constraint_name AND tc.table_schema = kcu.table_schema
        JOIN information_schema.constraint_column_usage ccu
            ON tc.constraint_name = ccu.constraint_name AND tc.table_schema = ccu.table_schema
        WHERE tc.constraint_type = 'FOREIGN KEY'
          AND ((kcu.table_schema = %s AND kcu.table_name = %s)
               OR (ccu.table_schema = %s AND ccu.table_name = %s))
        ORDER BY tc.constraint_name
    ".




Inductive direction : Type := OUTGOING | INCOMING.

(** A declared foreign key, as found in the catalog. *)
Record edge : Type := Edge {
  constraint_name : pyval;
  edge_direction : direction;
  from_schema : pyval;
  from_table : pyval;
  from_column : pyval;
  to_schema : pyval;
  to_table : pyval;
  to_column : pyval;
}.

Inductive confidence : Type := HIGH | MEDIUM.

(** A relationship guessed from column names; its [type] is always
    [NAMING_CONVENTION]. *)
Record hint : Type := Hint {
  hint_from_table : string;
  hint_from_column : string;
  hint_to_schema : pyval;
  hint_to_table : pyval;
  hint_to_column : pyval;
  hint_confidence : confidence;
}.

(** [{... r[i] ...}] for a row of seven (or six, five) cells. *)
Definition cell (r : row) (i : nat) : M pyval := lift (item r i).

(** *** Oracle *)

Definition _oracle_find_fk (schema table_name : string) : M (list edge) :=
  let binds := Named [("schema", PStr schema); ("tname", PStr table_name)] in
  let edge_of (d : direction) (r : row) : M (list edge) :=
    r0 ← cell r 0; r5 ← cell r 5; r1 ← cell r 1; r2 ← cell r 2;
    r6 ← cell r 6; r3 ← cell r 3; r4 ← cell r 4;
    mret [Edge r0 d r5 r1 r2 r6 r3 r4] in
  execute sql_oracle_fk_outgoing binds;;
  rs ← fetchall;
  outgoing ← for_each rs (edge_of OUTGOING);
  execute sql_oracle_fk_incoming binds;;
  rs ← fetchall;
  incoming ← for_each rs (edge_of INCOMING);
  mret (outgoing ++ incoming).

Definition fk_suffixes : list string := ["_ID"; "_CODE"; "_KEY"; "_NO"; "_NUM"].

(** [col[: -len(suffix)]]. *)
Definition drop_suffix (col suffix : string) : string :=
  String.substring 0 (String.length col - String.length suffix) col.

(** The [(col, prefix, pk_suffix)] triples that one column contributes. *)
Definition fk_patterns_of (table_name col : string) : list (string * string * string) :=
  suffix ← fk_suffixes;
  if endswith col suffix then
    let prefix := drop_suffix col suffix in
    if negb (is_empty prefix) && negb (String.eqb prefix table_name) then
      [(col, prefix, lstrip_chars "_" suffix)]
    else []
  else [].

Definition _oracle_find_naming_hints (schema table_name : string) : M (list hint) :=
  execute sql_oracle_columns (Named [("schema", PStr schema); ("tname", PStr table_name)]);;
  rs ← fetchall;
  columns ← lift (comprehension (λ r, text_item r 0) rs);
  let fk_patterns := columns ≫= fk_patterns_of table_name in
  for_each fk_patterns (λ '(fk_col, prefix, pk_suffix),
    execute sql_oracle_tables_like
      (Named [("schema", PStr schema); ("exact", PStr prefix);
              ("pattern", PStr ("%" +:+ prefix +:+ "%"));
              ("pattern2", PStr (prefix +:+ "%"))]);;
    matches ← fetchall;
    for_each matches (λ m,
      m0 ← cell m 0;
      execute sql_oracle_pk_columns
        (Named [("schema", PStr schema); ("tname", m0); ("pk1", PStr pk_suffix);
                ("pk2", PStr (py_str m0 +:+ "_" +:+ pk_suffix)); ("pk3", PStr fk_col)]);;
      rs ← fetchall;
      pk_cols ← lift (comprehension (λ r, item r 0) rs);
      match pk_cols with
      | [] => mret []
      | pk :: _ =>
          m1 ← cell m 1;
          mret [Hint table_name fk_col m1 m0 pk MEDIUM]
      end)).

(** *** MySQL *)

Definition _mysql_find_fk (schema table_name : string) : M (list edge) :=
  let binds := Positional [PStr schema; PStr table_name] in
  execute sql_mysql_fk_outgoing binds;;
  rs ← fetchall;
  outgoing ← for_each rs (λ r,
    r0 ← cell r 0; r1 ← cell r 1; r2 ← cell r 2;
    r3 ← cell r 3; r4 ← cell r 4; r5 ← cell r 5;
    mret [Edge r0 OUTGOING (PStr schema) r1 r2 r3 r4 r5]);
  execute sql_mysql_fk_incoming binds;;
  rs ← fetchall;
  incoming ← for_each rs (λ r,
    r0 ← cell r 0; r1 ← cell r 1; r2 ← cell r 2; r3 ← cell r 3; r4 ← cell r 4;
    mret [Edge r0 INCOMING r1 r2 r3 (PStr schema) (PStr table_name) r4]);
  mret (outgoing ++ incoming).

Definition _mysql_find_naming_hints (schema table_name : string) : M (list hint) :=
  (* Simplified: similar logic can be added later *)
  mret [].

(** *** PostgreSQL *)

Definition is_str (v : pyval) (s : string) : bool :=
  match v with PStr s' => String.eqb s' s | _ => false end.

Definition _pg_find_fk (schema table_name : string) : M (list edge) :=
  execute sql_pg_fk
    (Positional [PStr schema; PStr table_name; PStr schema; PStr table_name]);;
  rs ← fetchall;
  for_each rs (λ r,
    r2 ← cell r 2;
    let d := if is_str r2 table_name then OUTGOING else INCOMING in
    r0 ← cell r 0; r1 ← cell r 1; r3 ← cell r 3;
    r4 ← cell r 4; r5 ← cell r 5; r6 ← cell r 6;
    mret [Edge r0 d r1 r2 r3 r4 r5 r6]).

Definition _pg_find_naming_hints (schema table_name : string) : M (list hint) :=
  mret [].

(** *** Join paths between two tables *)

Inductive path_kind : Type := COMMON_COLUMN | NAMING_CONVENTION.

(** One candidate as [_find_join_path] builds it: [type], [join],
    [confidence]. *)
Record path : Type := Path {
  path_type : path_kind;
  join : string;
  path_confidence : confidence;
}.

(** [f"{table1}.{c1} = {table2}.{c2}"]. *)
Definition predicate (table1 c1 table2 c2 : string) : string :=
  table1 +:+ "." +:+ c1 +:+ " = " +:+ table2 +:+ "." +:+ c2.

(** [c.endswith(("_ID", "_KEY", "_CODE"))]. *)
Definition ends_like_key (c : string) : bool :=
  existsb (endswith c) ["_ID"; "_KEY"; "_CODE"].

Definition key_suffixes : list string := ["_ID"; "_CODE"; "_KEY"].


(** Exact column name match. *)
Definition common_columns (table1 table2 : string) (cols1 cols2 : gset string) : list path :=
  (λ c, Path COMMON_COLUMN (predicate table1 c table2 c)
             (if ends_like_key c then HIGH else MEDIUM))
  <$> elements (cols1 ∩ cols2).

(** Naming convention: TABLE1_ID in TABLE2. *)
Definition referencing_1 (table1 table2 : string) (cols1 cols2 : gset string) : list path :=
  c2 ← elements cols2;
  suffix ← key_suffixes;
  if startswith c2 table1 && endswith c2 suffix then
    let pk_guess := lstrip_chars "_" suffix in
    if bool_decide (pk_guess ∈ cols1) || bool_decide (c2 ∈ cols1) then
      let pk := if bool_decide (pk_guess ∈ cols1) then pk_guess else c2 in
      [Path NAMING_CONVENTION (predicate table1 pk table2 c2) MEDIUM]
    else []
  else [].

Definition referencing_2 (table1 table2 : string) (cols1 cols2 : gset string) : list path :=
  c1 ← elements cols1;
  suffix ← key_suffixes;
  if startswith c1 table2 && endswith c1 suffix then
    let pk_guess := lstrip_chars "_" suffix in
    if bool_decide (pk_guess ∈ cols2) || bool_decide (c1 ∈ cols2) then
      let pk := if bool_decide (pk_guess ∈ cols2) then pk_guess else c1 in
      [Path NAMING_CONVENTION (predicate table1 c1 table2 pk) MEDIUM]
    else []
  else [].

(** The candidates for two tables whose column sets are known. *)
Definition join_paths (table1 table2 : string) (cols1 cols2 : gset string) : list path :=
  common_columns table1 table2 cols1 cols2 ++
  referencing_1 table1 table2 cols1 cols2 ++
  referencing_2 table1 table2 cols1 cols2.


(** *** Public API *)

Definition _FK_FUNCS
    : gmap string ((string → string → M (list edge)) * (string → string → M (list hint))) :=
  {[ "oracle" := (_oracle_find_fk, _oracle_find_naming_hints);
     "mysql" := (_mysql_find_fk, _mysql_find_naming_hints);
     "postgresql" := (_pg_find_fk, _pg_find_naming_hints) ]}.

(** The dict that [find_relationships] returns. *)
Record relationships : Type := Relationships {
  rel_schema : string;
  rel_table : string;
  rel_db_type : string;
  foreign_keys : list edge;
  naming_hints : list hint;
}.

Definition find_relationships (schema table_name db_alias : string) : M relationships :=
  w ← ask;
  db_type ← lift (get_db_type (environ w) db_alias);
  '(fk_func, hint_func) ← lift (match _FK_FUNCS !! db_type with
                                | Some fs => inr fs
                                | None => inl (KeyError db_type)
                                end);
  '(fks, hints) ← get_connection db_alias (
      cursor;;
      fks ← fk_func schema table_name;
      hints ← hint_func schema table_name;
      mret (fks, hints));
  mret (Relationships schema table_name db_type fks hints).


(** The pairs [(tables[i], tables[j])] with [i < j], in the order of the two
    loops. *)
Fixpoint pairs (tables : list string) : list (string * string) :=
  match tables with
  | [] => []
  | t :: rest => ((λ u, (t, u)) <$> rest) ++ pairs rest
  end.



End find_relationships.

(** ** scripts/sample_data.py *)

Module sample_data.
Import PyStr Py.
Import db_connector (get_db_type, get_connection).




End sample_data.

(** ** scripts/report_missing_column_comments.py *)

Module report_missing_column_comments.



End report_missing_column_comments.


(** * The vocabulary of the properties *)

Import PyStr Re Py db_connector.

(** The last character of a text. *)
Fixpoint last_char (s : string) : option ascii :=
  match s with
  | "" => None
  | String c s' =>
      match last_char s' with
      | Some d => Some d
      | None => Some c
      end
  end.

(** The four dialects of the design document and the tags that
    [get_db_type] returns for them. *)
Inductive dialect : Type := ORACLE | MYSQL | POSTGRESQL | SQLSERVER.

Definition tag (d : dialect) : string :=
  match d with
  | ORACLE => "oracle"
  | MYSQL => "mysql"
  | POSTGRESQL => "postgresql"
  | SQLSERVER => "sqlserver"
  end.

(** The type configured for an alias: the value of [<alias>_TYPE],
    lowercased and trimmed; empty when the variable is unset or blank. *)
Definition configured_type (env : gmap string string) (db_alias : string) : string :=
  strip (lower (default "" (env !! (db_alias +:+ "_TYPE")))).

Definition raises {A} (r : exn + A) : Prop := ∃ e, r = inl e.

(** The bounding forms, in the words of the design document. *)
Definition bounding_form (d : dialect) (sql : string) (cap : Z) : string :=
  match d with
  | ORACLE => "SELECT * FROM (" +:+ sql +:+ ") WHERE ROWNUM <= " +:+ pretty cap
  | MYSQL | POSTGRESQL =>
      "SELECT * FROM (" +:+ sql +:+ ") AS _limited LIMIT " +:+ pretty cap
  | SQLSERVER => "SELECT TOP " +:+ pretty cap +:+ " * FROM (" +:+ sql +:+ ") AS _limited"
  end.

(** The statement text that gets wrapped: [sql.rstrip().rstrip(";")]. *)
Definition terminator_stripped (sql : string) : string :=
  rstrip_chars ";" (rstrip sql).

(** The reading of "strips one trailing statement terminator": trailing
    whitespace goes, then one [;] if the text ends in one. *)
Fixpoint drop_one_semicolon (s : string) : string :=
  match s with
  | "" => ""
  | String c "" => if Ascii.eqb c ";" then "" else s
  | String c s' => String c (drop_one_semicolon s')
  end.

Definition one_terminator_stripped (sql : string) : string :=
  drop_one_semicolon (rstrip sql).

(** [s] without its prefix [kw], when it has that prefix. *)
Fixpoint strip_prefix (kw s : string) : option string :=
  match kw, s with
  | "", _ => Some s
  | String c kw', String d s' => if Ascii.eqb c d then strip_prefix kw' s' else None
  | String _ _, "" => None
  end.

(** The character before the position reached after reading [pre], when
    [prev] was the character before [pre]. *)
Definition char_before (prev : option ascii) (pre : string) : option ascii :=
  match last_char pre with
  | Some c => Some c
  | None => prev
  end.

(** A blocked keyword as a standalone word of a text: an occurrence that
    is neither preceded nor followed by a word character. *)
Definition standalone (kw text : string) : Prop :=
  ∃ pre post, text = pre +:+ kw +:+ post ∧
    word_before (last_char pre) = false ∧ word_after post = false.

(** The keywords of the classification, as the design document lists
    them. *)
Definition blocked_keywords : list string :=
  ["INSERT"; "UPDATE"; "DELETE"; "DROP"; "ALTER"; "CREATE"; "TRUNCATE"; "MERGE";
   "GRANT"; "REVOKE"; "EXEC"; "EXECUTE"; "CALL"; "BEGIN"; "DECLARE"].

Definition leading_keywords : list string := ["SELECT"; "WITH"; "EXPLAIN"].

(** The characters of a text up to its first blank. *)
Fixpoint until_space (s : string) : string :=
  match s with
  | "" => ""
  | String c rest => if is_space c then "" else String c (until_space rest)
  end.

(** The first whitespace-delimited token of a text, empty when the text
    has none. *)
Fixpoint first_token (s : string) : string :=
  match s with
  | "" => ""
  | String c rest => if is_space c then first_token rest else String c (until_space rest)
  end.

(** Where a reader of SQL text stands: in the statement, in a line comment
    or in a block comment. *)
Inductive lexing : Type := IN_STATEMENT | IN_LINE_COMMENT | IN_BLOCK_COMMENT.

(** A text without its comments, read from left to right.  A line comment
    runs from [--] to the end of its line, a block comment from [/*] to the
    next [*/]; what stands inside a comment opens no other comment, and a
    [/*] that is never closed opens none. *)
Fixpoint uncommented (state : lexing) (s : string) : string :=
  match s with
  | "" => ""
  | String c s' =>
      match state with
      | IN_STATEMENT =>
          match s' with
          | String d s'' =>
              if Ascii.eqb c "-" && Ascii.eqb d "-" then uncommented IN_LINE_COMMENT s''
              else if Ascii.eqb c "/" && Ascii.eqb d "*" && contains "*/" s'' then
                uncommented IN_BLOCK_COMMENT s''
              else String c (uncommented IN_STATEMENT s')
          | "" => String c ""
          end
      | IN_LINE_COMMENT =>
          if Ascii.eqb c "010" then String c (uncommented IN_STATEMENT s')
          else uncommented IN_LINE_COMMENT s'
      | IN_BLOCK_COMMENT =>
          match s' with
          | String d s'' =>
              if Ascii.eqb c "*" && Ascii.eqb d "/" then uncommented IN_STATEMENT s''
              else uncommented IN_BLOCK_COMMENT s'
          | "" => ""
          end
      end
  end.

Definition without_comments (sql : string) : string := uncommented IN_STATEMENT sql.

(** The verdict in the words of the design document: once the comments are
    stripped and the text is uppercased, the first whitespace-delimited
    token is SELECT, WITH or EXPLAIN, and no blocked keyword occurs anywhere
    as a standalone word. *)
Definition read_only (sql : string) : Prop :=
  let text := upper (without_comments sql) in
  first_token text ∈ leading_keywords ∧
  ∀ kw, kw ∈ blocked_keywords → ¬ standalone kw text.

(** A statement that hides a [DELETE] behind a block comment that holds
    the opening of a line comment. *)
Definition comment_in_comment : string := "/*--*/ DELETE FROM t
*/ select 1".

(** A world with the given environment in which every driver call succeeds
    and every fetch finds nothing. *)
Definition quiet_world (env : gmap string string) : world :=
  {| environ := env;
     connecting := λ _ _, None;
     executing := λ _ _ _, None;
     fetching_all := λ _, inr [];
     fetching_one := λ _, inr None;
     describing := λ _, None;
     committing := λ _, None;
     clock := λ _, 0;
     uuid4_hex := λ _, "0123456789abcdef0123456789abcdef";
     json_loads := λ v, inr v;
     float_gt := λ _, Some false |}.

(** A record that a detection rule appends: not an OK, not a NO_ISSUES
    record. *)
Definition finding (i : explain_query.issue) : Prop :=
  explain_query.issue_severity i ≠ explain_query.OK ∧
  explain_query.issue_type i ≠ explain_query.NO_ISSUES.

(** An issue list as the design document wants it, given what the
    detection rules found (a rule fires when it appends a record): never
    empty; the single OK/NO_ISSUES record when no rule fired; otherwise
    the findings, none of them an OK or NO_ISSUES record. *)
Definition issue_list_of (found result : list explain_query.issue) : Prop :=
  result ≠ [] ∧
  (found = [] →
   ∃ msg, result = [explain_query.Issue explain_query.OK explain_query.NO_ISSUES msg]) ∧
  (found ≠ [] → result = found ∧ Forall finding result).

(** The table names that the Oracle analyzer extracts, one per match of
    [TABLE ACCESS FULL\s*\|\s*(\S+)], and the full-scan records of an issue
    list. *)
Definition full_scan_tables (plan_lines : list string) : list string :=
  findall explain_query.table_access_full (PyStr.join "
" plan_lines).

Definition full_scan_records (l : list explain_query.issue) : list explain_query.issue :=
  filter (λ i, explain_query.issue_type i = explain_query.FULL_TABLE_SCAN) l.

(** The statement of the last [execute] of a trace. *)
Definition last_statement (tr : list call) : string :=
  foldl (λ acc c, match c with Execute sql _ => sql | _ => acc end) "" tr.

(** An Oracle catalog in which the table asked about has the column
    [CUSTOMER_ID], the schema [SALES] has a table [CUSTOMER], and that table
    has the column [ID]; it declares no foreign key. *)
Definition customer_catalog : world :=
  {| environ := {[ "DWH_TYPE" := "oracle" ]};
     connecting := λ _ _, None;
     executing := λ _ _ _, None;
     fetching_all := λ tr,
       let sql := last_statement tr in
       if String.eqb sql find_relationships.sql_oracle_columns then
         inr [[PStr "CUSTOMER_ID"]]
       else if String.eqb sql find_relationships.sql_oracle_tables_like then
         inr [[PStr "CUSTOMER"; PStr "SALES"]]
       else if String.eqb sql find_relationships.sql_oracle_pk_columns then
         inr [[PStr "ID"]]
       else inr [];
     fetching_one := λ _, inr None;
     describing := λ _, None;
     committing := λ _, None;
     clock := λ _, 0;
     uuid4_hex := λ _, "0123456789abcdef0123456789abcdef";
     json_loads := λ v, inr v;
     float_gt := λ _, Some false |}.

(** A join-path candidate before it is rendered: its kind, the column of
    the left table, the column of the right table, its confidence. *)
Record column_pair : Type := ColumnPair {
  pair_kind : find_relationships.path_kind;
  left_column : string;
  right_column : string;
  pair_confidence : find_relationships.confidence;
}.

(** The candidate as [_find_join_path] emits it for the tables [table1]
    (left) and [table2] (right). *)
Definition render (table1 table2 : string) (p : column_pair) : find_relationships.path :=
  find_relationships.Path (pair_kind p)
    (find_relationships.predicate table1 (left_column p) table2 (right_column p))
    (pair_confidence p).

(** The two table roles exchanged. *)
Definition swap_roles (p : column_pair) : column_pair :=
  ColumnPair (pair_kind p) (right_column p) (left_column p) (pair_confidence p).

(** The shared column names of two tables, as pairs. *)
Definition common_pairs (cols1 cols2 : gset string) : list column_pair :=
  (λ c, ColumnPair find_relationships.COMMON_COLUMN c c
          (if find_relationships.ends_like_key c
           then find_relationships.HIGH else find_relationships.MEDIUM))
  <$> elements (cols1 ∩ cols2).

(** The (key column, referencing column) pairs by naming convention: a
    column of [fk_cols] named after the table [referenced], whose suffix
    root or own name is a column of [pk_cols]. *)
Definition referencing (referenced : string) (pk_cols fk_cols : gset string)
    : list (string * string) :=
  fk ← elements fk_cols;
  suffix ← find_relationships.key_suffixes;
  if PyStr.startswith fk referenced && PyStr.endswith fk suffix then
    let pk_guess := PyStr.lstrip_chars "_" suffix in
    if bool_decide (pk_guess ∈ pk_cols) || bool_decide (fk ∈ pk_cols) then
      [(if bool_decide (pk_guess ∈ pk_cols) then pk_guess else fk, fk)]
    else []
  else [].

Definition key_on_left (p : string * string) : column_pair :=
  ColumnPair find_relationships.NAMING_CONVENTION p.1 p.2 find_relationships.MEDIUM.

Definition key_on_right (p : string * string) : column_pair :=
  ColumnPair find_relationships.NAMING_CONVENTION p.2 p.1 find_relationships.MEDIUM.

(** All the candidates of two tables, as pairs. *)
Definition candidate_pairs (table1 table2 : string) (cols1 cols2 : gset string)
    : list column_pair :=
  common_pairs cols1 cols2 ++
  (key_on_left <$> referencing table1 cols1 cols2) ++
  (key_on_right <$> referencing table2 cols2 cols1).

(** The computation [m] only ever adds calls that satisfy [P] to the
    trace, whatever the world and however it ends. *)
Definition sends {A} (P : call → Prop) (m : M A) : Prop :=
  ∀ w tr, ∃ calls, (m w tr).2 = tr ++ calls ∧ Forall P calls.
























(** A world on Oracle in which every driver call succeeds and every fetch
    finds the given rows. *)
Definition fetching_world (fetched : list row) : world :=
  {| environ := {[ "DWH_TYPE" := "oracle" ]};
     connecting := λ _ _, None;
     executing := λ _ _ _, None;
     fetching_all := λ _, inr fetched;
     fetching_one := λ _, inr None;
     describing := λ _, None;
     committing := λ _, None;
     clock := λ _, 0;
     uuid4_hex := λ _, "0123456789abcdef0123456789abcdef";
     json_loads := λ v, inr v;
     float_gt := λ _, Some false |}.



(** * Properties *)

(** ** Facts about the string primitives *)

Section string_facts.
Import PyStr.

Lemma str_app_nil_l (s : string) : "" +:+ s = s.
Proof. reflexivity. Qed.

Lemma str_app_cons (c : ascii) (s t : string) : String c s +:+ t = String c (s +:+ t).
Proof. reflexivity. Qed.

Lemma str_app_nil_r (s : string) : s +:+ "" = s.
Proof. induction s as [|c s IH]; [done|]. by rewrite str_app_cons, IH. Qed.

Lemma str_app_assoc (s t u : string) : (s +:+ t) +:+ u = s +:+ t +:+ u.
Proof. induction s as [|c s IH]; [done|]. by rewrite !str_app_cons, IH. Qed.

Lemma prefix_app (s t : string) : String.prefix s (s +:+ t) = true.
Proof.
  induction s as [|c s IH]; [by destruct t|].
  rewrite str_app_cons. simpl. by destruct (ascii_dec c c).
Qed.

Lemma contains_here (n s : string) : String.prefix n s = true → contains n s = true.
Proof. intros H. destruct s; cbn [contains]; by rewrite H. Qed.

Lemma contains_later (n : string) (c : ascii) (s : string) :
  contains n s = true → contains n (String c s) = true.
Proof. intros H. cbn [contains]. rewrite H. apply orb_true_r. Qed.

(** A text contains every one of its infixes. *)
Lemma contains_infix (n pre post : string) : contains n (pre +:+ n +:+ post) = true.
Proof.
  induction pre as [|c pre IH].
  - rewrite str_app_nil_l. apply contains_here, prefix_app.
  - rewrite str_app_cons. by apply contains_later.
Qed.

Lemma contains_app_r (n s t : string) : contains n t = true → contains n (s +:+ t) = true.
Proof.
  intros H. induction s as [|c s IH]; [done|].
  rewrite str_app_cons. by apply contains_later.
Qed.

Lemma contains_self (n : string) : contains n n = true.
Proof. rewrite <- (str_app_nil_r n) at 2. apply contains_here, prefix_app. Qed.

Lemma all_chars_app (p : ascii → bool) (s t : string) :
  all_chars p (s +:+ t) = all_chars p s && all_chars p t.
Proof.
  induction s as [|c s IH]; [done|].
  rewrite str_app_cons. simpl. rewrite IH. by destruct (p c).
Qed.

(** [rstrip] cuts a suffix made of the characters to strip... *)
Lemma rstrip_with_split (p : ascii → bool) (s : string) :
  ∃ tail, s = rstrip_with p s +:+ tail ∧ all_chars p tail = true.
Proof.
  induction s as [|c s (tail & Hs & Htail)].
  - by exists "".
  - simpl. destruct (is_empty (rstrip_with p s)) eqn:He, (p c) eqn:Hc; simpl.
    + exists (String c s). split; [done|]. simpl. rewrite Hc. simpl.
      destruct (rstrip_with p s); [|done]. by rewrite Hs.
    + exists tail. by rewrite str_app_cons, <- Hs.
    + exists tail. by rewrite str_app_cons, <- Hs.
    + exists tail. by rewrite str_app_cons, <- Hs.
Qed.

(** ... and what it leaves does not end in such a character. *)
Lemma rstrip_with_last (p : ascii → bool) (s : string) (c : ascii) :
  last_char (rstrip_with p s) = Some c → p c = false.
Proof.
  revert c. induction s as [|d s IH]; intros c; [done|].
  simpl. destruct (rstrip_with p s) as [|e r] eqn:Hr; simpl.
  - destruct (p d) eqn:Hd; simpl; [done|]. by intros [= <-].
  - simpl in IH. destruct (last_char r) eqn:Hl; intros [= <-]; by apply IH.
Qed.

Lemma rstrip_with_all (p : ascii → bool) (s : string) :
  all_chars p s = true → rstrip_with p s = "".
Proof.
  induction s as [|c s IH]; [done|].
  simpl. intros [Hc Hs]%andb_true_iff. by rewrite IH, Hc.
Qed.

Lemma lstrip_with_split (p : ascii → bool) (s : string) :
  ∃ lead, s = lead +:+ lstrip_with p s ∧ all_chars p lead = true.
Proof.
  induction s as [|c s (lead & Hs & Hlead)].
  - by exists "".
  - simpl. destruct (p c) eqn:Hc.
    + exists (String c lead). rewrite str_app_cons, <- Hs. simpl. by rewrite Hc.
    + by exists "".
Qed.

Lemma one_of_semicolon (c : ascii) : one_of ";" c = true ↔ c = ";"%char.
Proof.
  unfold one_of. simpl. rewrite andb_true_r, negb_involutive.
  apply Ascii.eqb_eq.
Qed.

End string_facts.

(** ** Dialects *)

Lemma tag_in_dialects (t : string) : t ∈ db_connector.dialects ↔ ∃ d, t = tag d.
Proof.
  unfold db_connector.dialects. rewrite !elem_of_cons, elem_of_nil. split.
  - intros [->|[->|[->|[->|[]]]]]; [by exists ORACLE|by exists MYSQL|
      by exists POSTGRESQL|by exists SQLSERVER].
  - intros [[] ->]; simpl; auto.
Qed.

(** ** Dialect resolution *)

Section dialect_resolution.
Import PyStr Py db_connector.

Lemma is_empty_spec (s : string) : is_empty s = true ↔ s = "".
Proof. by destruct s. Qed.

Lemma str_in_spec (s : string) (l : list string) : str_in s l = true ↔ s ∈ l.
Proof. unfold str_in. apply bool_decide_eq_true. Qed.

(** C10.  [get_db_type] raises exactly when the configured type is not one
    of oracle, mysql, postgresql, sqlserver, except that for the alias DWH
    (in any letter case) with no type configured it returns oracle; a
    configured supported type is returned as it is. *)
Theorem get_db_type_resolution (env : gmap string string) (db_alias : string) :
  let t := configured_type env db_alias in
  (raises (get_db_type env db_alias) ↔
     ((t ∉ dialects) ∧ ¬ (t = "" ∧ upper db_alias = "DWH"))) ∧
  (t = "" → upper db_alias = "DWH" → get_db_type env db_alias = inr "oracle") ∧
  (t ∈ dialects → get_db_type env db_alias = inr t) ∧
  (env !! (db_alias +:+ "_TYPE") = None → t = "").
Proof.
  intros t. unfold get_db_type. fold (configured_type env db_alias). fold t.
  assert (Hempty : "" ∉ dialects).
  { intros H%str_in_spec. vm_compute in H. discriminate. }
  assert (Hunset : env !! (db_alias +:+ "_TYPE") = None → t = "").
  { intros H. subst t. unfold configured_type. by rewrite H. }
  destruct (is_empty t) eqn:He.
  - apply is_empty_spec in He.
    destruct (String.eqb (upper db_alias) "DWH") eqn:Hd.
    + apply String.eqb_eq in Hd. split; [|split; [|split]]; [|done| |done].
      * split; [by intros [e ?]|]. intros [_ H]. by destruct H.
      * intros H. rewrite He in H. by destruct (Hempty H).
    + apply String.eqb_neq in Hd. split; [|split; [|split]]; [|done| |done].
      * split; [|intros _; by eexists].
        intros _. rewrite He. split; [done|]. by intros [_ ?].
      * intros H. rewrite He in H. by destruct (Hempty H).
  - assert (t ≠ "") as Hne by (intros H; apply is_empty_spec in H; congruence).
    destruct (str_in t dialects) eqn:Hin; simpl.
    + apply str_in_spec in Hin. split; [|split; [|split]]; [|done|done|done].
      split; [by intros [e ?]|]. by intros [H _].
    + assert (t ∉ dialects) as Hnin by (rewrite <- str_in_spec; congruence).
      split; [|split; [|split]]; [|done|done|done].
      split; [|intros _; by eexists]. intros _. split; [done|]. by intros [? _].
Qed.

Lemma get_db_type_resolution_witness :
  get_db_type ∅ "dwh" = inr "oracle" ∧
  get_db_type {[ "CRM_TYPE" := " MySQL " ]} "CRM" = inr "mysql".
Proof.
  split.
  - exact (proj1 (proj2 (get_db_type_resolution ∅ "dwh")) eq_refl eq_refl).
  - refine (proj1 (proj2 (proj2
      (get_db_type_resolution {[ "CRM_TYPE" := " MySQL " ]} "CRM"))) _).
    apply str_in_spec. reflexivity.
Defined.

(** Whatever [get_db_type] returns is the tag of a dialect. *)
Lemma get_db_type_dialect (env : gmap string string) (db_alias t : string) :
  get_db_type env db_alias = inr t → ∃ d, t = tag d.
Proof.
  unfold get_db_type. intros H.
  repeat case_match; simplify_eq.
  - by exists ORACLE.
  - apply tag_in_dialects, str_in_spec. by destruct (str_in _ _).
Qed.

End dialect_resolution.

(** ** The bounding rewrite *)

Section bounding_rewrite.
Import PyStr.

(** Both copies of [_wrap_with_limit] produce the bounding form. *)
Lemma wrap_is_bounding_form (sql : string) (cap : Z) (d : dialect) :
  run_query_safe._wrap_with_limit sql cap (tag d)
    = bounding_form d (terminator_stripped sql) cap ∧
  db_connector._wrap_with_limit sql cap (tag d)
    = bounding_form d (terminator_stripped sql) cap.
Proof. by destruct d. Qed.


(** C3.  For every statement and row cap the rewrite is the wrapper of the
    dialect around the statement without its terminator; the Oracle output
    contains [WHERE ROWNUM <= cap], the MySQL and PostgreSQL outputs contain
    [LIMIT cap] and the SQL Server output begins with [SELECT TOP cap]; for
    [select * from t] and the cap 50 these are [WHERE ROWNUM <= 50],
    [LIMIT 50] and [SELECT TOP 50]. *)
Theorem bounded_rewrite_form (sql : string) (cap : Z) :
  (∀ d, run_query_safe._wrap_with_limit sql cap (tag d)
          = bounding_form d (terminator_stripped sql) cap
        ∧ db_connector._wrap_with_limit sql cap (tag d)
          = bounding_form d (terminator_stripped sql) cap) ∧
  contains ("WHERE ROWNUM <= " +:+ pretty cap)
    (run_query_safe._wrap_with_limit sql cap "oracle") = true ∧
  contains ("LIMIT " +:+ pretty cap)
    (run_query_safe._wrap_with_limit sql cap "mysql") = true ∧
  contains ("LIMIT " +:+ pretty cap)
    (run_query_safe._wrap_with_limit sql cap "postgresql") = true ∧
  startswith (run_query_safe._wrap_with_limit sql cap "sqlserver")
    ("SELECT TOP " +:+ pretty cap) = true ∧
  run_query_safe._wrap_with_limit "select * from t" 50 "oracle"
    = "SELECT * FROM (select * from t) WHERE ROWNUM <= 50" ∧
  run_query_safe._wrap_with_limit "select * from t" 50 "mysql"
    = "SELECT * FROM (select * from t) AS _limited LIMIT 50" ∧
  run_query_safe._wrap_with_limit "select * from t" 50 "postgresql"
    = "SELECT * FROM (select * from t) AS _limited LIMIT 50" ∧
  run_query_safe._wrap_with_limit "select * from t" 50 "sqlserver"
    = "SELECT TOP 50 * FROM (select * from t) AS _limited".
Proof.
  split; [intros d; apply wrap_is_bounding_form|].
  repeat split; try reflexivity.
  - change (run_query_safe._wrap_with_limit sql cap "oracle")
      with ("SELECT * FROM (" +:+ terminator_stripped sql +:+ ") " +:+
            "WHERE ROWNUM <= " +:+ pretty cap).
    do 3 apply contains_app_r. apply contains_self.
  - change (run_query_safe._wrap_with_limit sql cap "mysql")
      with ("SELECT * FROM (" +:+ terminator_stripped sql +:+ ") AS _limited " +:+
            "LIMIT " +:+ pretty cap).
    do 3 apply contains_app_r. apply contains_self.
  - change (run_query_safe._wrap_with_limit sql cap "postgresql")
      with ("SELECT * FROM (" +:+ terminator_stripped sql +:+ ") AS _limited " +:+
            "LIMIT " +:+ pretty cap).
    do 3 apply contains_app_r. apply contains_self.
  - unfold startswith.
    change (run_query_safe._wrap_with_limit sql cap "sqlserver")
      with ("SELECT TOP " +:+ pretty cap +:+ " * FROM (" +:+
            terminator_stripped sql +:+ ") AS _limited").
    rewrite <- str_app_assoc. apply prefix_app.
Qed.

(** C7, as stated, fails: of two trailing terminators both are stripped. *)
Lemma one_terminator_counterexample :
  ¬ (∀ sql cap d,
       run_query_safe._wrap_with_limit sql cap (tag d)
         = bounding_form d (one_terminator_stripped sql) cap).
Proof. intros H. specialize (H "select 1;;" 50 ORACLE). discriminate H. Qed.

(** C7, amended.  The rewrite strips the trailing whitespace and then the
    whole run of trailing [;], be it empty, one or several: the statement
    is the wrapped text followed by semicolons and then whitespace, the
    wrapped text does not end in [;], and it stands verbatim inside the
    bounding form of the dialect. *)
Theorem terminators_stripped (sql : string) (cap : Z) (d : dialect) :
  ∃ semicolons blanks,
    sql = terminator_stripped sql +:+ semicolons +:+ blanks ∧
    all_chars (λ c, Ascii.eqb c ";") semicolons = true ∧
    all_chars is_space blanks = true ∧
    last_char (terminator_stripped sql) ≠ Some ";"%char ∧
    run_query_safe._wrap_with_limit sql cap (tag d)
      = bounding_form d (terminator_stripped sql) cap ∧
    db_connector._wrap_with_limit sql cap (tag d)
      = bounding_form d (terminator_stripped sql) cap.
Proof.
  destruct (rstrip_with_split is_space sql) as (blanks & Hsql & Hblanks).
  destruct (rstrip_with_split (one_of ";") (rstrip sql)) as (semis & Hr & Hsemis).
  exists semis, blanks. split; [|split; [|split; [|split]]].
  - unfold terminator_stripped, rstrip_chars.
    rewrite <- str_app_assoc, <- Hr. exact Hsql.
  - clear Hr. induction semis as [|c semis IH]; [done|].
    simpl in *. apply andb_true_iff in Hsemis as [Hc Hs].
    apply one_of_semicolon in Hc as ->. by rewrite IH.
  - exact Hblanks.
  - intros H. apply rstrip_with_last in H. by vm_compute in H.
  - apply wrap_is_bounding_form.
Qed.

End bounding_rewrite.

(** ** The statement classifier *)

Section classifier.
Import PyStr Re db_connector.

Lemma char_before_cons (prev : option ascii) (c : ascii) (s : string) :
  char_before prev (String c s) = char_before (Some c) s.
Proof. unfold char_before. simpl. by destruct (last_char s). Qed.

Lemma char_before_start (pre : string) : char_before None pre = last_char pre.
Proof. unfold char_before. by destruct (last_char pre). Qed.

Lemma strip_prefix_spec (kw s rest : string) :
  strip_prefix kw s = Some rest ↔ s = kw +:+ rest.
Proof.
  revert s. induction kw as [|c kw IH]; intros s.
  - simpl. rewrite str_app_nil_l. split; congruence.
  - rewrite str_app_cons. destruct s as [|d s]; simpl; [split; congruence|].
    destruct (Ascii.eqb c d) eqn:E.
    + apply Ascii.eqb_eq in E as ->. rewrite IH. split; congruence.
    + apply Ascii.eqb_neq in E. split; congruence.
Qed.

(** Matching a literal: the text must start with it. *)
Lemma run_lit (kw : string) (k : cont) (prev : option ascii) (s : string)
    (cap : option string) :
  run (lit kw) k prev s cap =
    match strip_prefix kw s with
    | Some rest => k (char_before prev kw) rest cap
    | None => None
    end.
Proof.
  revert prev s. induction kw as [|c kw IH]; intros prev s; [done|].
  cbn [lit run]. destruct s as [|d s]; [done|]. cbn [strip_prefix].
  destruct (Ascii.eqb c d) eqn:E; [|done].
  apply Ascii.eqb_eq in E as ->. by rewrite IH, char_before_cons.
Qed.

Lemma last_char_all (p : ascii → bool) (s : string) (c : ascii) :
  all_chars p s = true → last_char s = Some c → p c = true.
Proof.
  revert c. induction s as [|d s IH]; intros c; [done|].
  simpl. intros [Hd Hs]%andb_true_iff.
  destruct (last_char s) eqn:Hl; intros [= <-]; auto.
Qed.

(** A search succeeds when the pattern matches at some position. *)
Lemma search_from_spec (r : regex) (prev : option ascii) (s : string) :
  search_from r prev s = true ↔
  ∃ pre post, s = pre +:+ post ∧ is_Some (match_at r (char_before prev pre) post).
Proof.
  split.
  - revert prev. induction s as [|c s IH]; intros prev; cbn [search_from].
    + destruct (match_at r prev "") eqn:Hm; [|done].
      intros _. exists "", "". split; [done|]. exists o. exact Hm.
    + destruct (match_at r prev (String c s)) eqn:Hm.
      * intros _. exists "", (String c s). split; [done|]. exists o. exact Hm.
      * intros (pre & post & -> & H)%IH.
        exists (String c pre), post. by rewrite char_before_cons.
  - intros (pre & post & -> & H). revert prev H.
    induction pre as [|c pre IH]; intros prev H.
    + rewrite str_app_nil_l. destruct H as [o H]. change (char_before prev "") with prev in H.
      destruct post; cbn [search_from]; by rewrite H.
    + rewrite str_app_cons. cbn [search_from].
      destruct (match_at r prev (String c (pre +:+ post))); [done|].
      apply IH. by rewrite <- (char_before_cons prev).
Qed.

(** [\bkw\b] matches at a position exactly when [kw] stands there between
    two word boundaries. *)
Lemma match_keyword (kw : string) (prev : option ascii) (s : string) :
  kw ≠ "" → all_chars is_word kw = true →
  is_Some (match_at (keyword kw) prev s) ↔
  ∃ post, s = kw +:+ post ∧ word_before prev = false ∧ word_after post = false.
Proof.
  intros Hne Hword. unfold match_at, keyword. cbn [run]. rewrite run_lit.
  destruct (strip_prefix kw s) as [rest|] eqn:Hp.
  - apply strip_prefix_spec in Hp as ->.
    assert (word_after (kw +:+ rest) = true) as ->.
    { destruct kw as [|c kw]; [done|]. rewrite str_app_cons. simpl.
      simpl in Hword. by apply andb_true_iff in Hword as [? _]. }
    assert (word_before (char_before prev kw) = true) as ->.
    { unfold char_before. destruct (last_char kw) as [e|] eqn:Hl.
      - simpl. by apply (last_char_all is_word kw).
      - by destruct kw as [|c kw]; [|simpl in Hl; destruct (last_char kw)]. }
    destruct (word_before prev), (word_after rest) eqn:Hr; simpl; split.
    all: try by (intros [? ?]).
    all: try by (intros (post & ->%(inj (String.app kw)) & ? & ?); congruence).
    intros _. by exists rest.
  - split; [destruct (xorb _ _); by intros [? ?]|].
    intros (post & -> & _). assert (strip_prefix kw (kw +:+ post) = Some post) as H.
    { by apply strip_prefix_spec. }
    congruence.
Qed.

Lemma search_keyword (kw text : string) :
  kw ≠ "" → all_chars is_word kw = true →
  search (keyword kw) text = true ↔ standalone kw text.
Proof.
  intros Hne Hword. unfold search, standalone. rewrite search_from_spec.
  split.
  - intros (pre & post' & -> & H).
    apply match_keyword in H as (post & -> & Hb & Ha); [|done..].
    rewrite char_before_start in Hb. by exists pre, post.
  - intros (pre & post & -> & Hb & Ha). exists pre, (kw +:+ post).
    split; [done|]. apply match_keyword; [done..|].
    exists post. by rewrite char_before_start.
Qed.

Lemma blocked_are_words (kw : string) :
  kw ∈ blocked → kw ≠ "" ∧ all_chars is_word kw = true.
Proof.
  unfold blocked. rewrite !elem_of_cons, elem_of_nil.
  intros H. repeat (destruct H as [->|H]; [by split|]). done.
Qed.

(** Removing the matches of a pattern that cannot start at a blank leaves
    a blank text as it is. *)
Lemma remove_from_blank (r : regex) (prev : option ascii) (s : string) :
  (∀ prev c s, is_space c = true → match_at r prev (String c s) = None) →
  all_chars is_space s = true → remove_from r prev s 0 = s.
Proof.
  intros Hr. revert prev. induction s as [|c s IH]; intros prev Hs.
  - cbn [remove_from]. by destruct (match_at r prev "") as [[? ?]|].
  - simpl in Hs. apply andb_true_iff in Hs as [Hc Hs].
    cbn [remove_from]. rewrite (Hr prev c s Hc). by rewrite IH.
Qed.

Lemma blank_is_no_dash (c : ascii) : is_space c = true → Ascii.eqb "-" c = false.
Proof.
  intros H. destruct (Ascii.eqb "-" c) eqn:E; [|done].
  apply Ascii.eqb_eq in E. by subst.
Qed.

Lemma blank_is_no_slash (c : ascii) : is_space c = true → Ascii.eqb "/" c = false.
Proof.
  intros H. destruct (Ascii.eqb "/" c) eqn:E; [|done].
  apply Ascii.eqb_eq in E. by subst.
Qed.

(** A blank statement is empty once cleaned. *)
Lemma cleaned_blank (sql : string) : all_chars is_space sql = true → cleaned sql = "".
Proof.
  intros H. unfold cleaned, remove_all.
  rewrite (remove_from_blank line_comment None sql); [|clear|done].
  2: { intros prev c s Hc. unfold match_at, line_comment. cbn [lit run].
       by rewrite (blank_is_no_dash c Hc). }
  rewrite (remove_from_blank block_comment None sql); [|clear|done].
  2: { intros prev c s Hc. unfold match_at, block_comment. cbn [lit run].
       by rewrite (blank_is_no_slash c Hc). }
  unfold strip, rstrip. by rewrite rstrip_with_all.
Qed.

Lemma allowed_not_blocked (w : string) : w ∈ allowed → w ∈ blocked → False.
Proof.
  unfold allowed, blocked. rewrite !elem_of_cons, !elem_of_nil.
  intros [->|[->|[->|[]]]] H; repeat (destruct H as [H|H]; [discriminate H|]); done.
Qed.

Lemma no_blocked_keyword (text : string) :
  existsb (λ kw, search (keyword kw) text) blocked = false ↔
  ∀ kw, kw ∈ blocked → ¬ standalone kw text.
Proof.
  split.
  - intros H kw Hkw Hs. destruct (blocked_are_words kw Hkw) as [Hne Hw].
    apply search_keyword in Hs; [|done..].
    assert (existsb (λ kw, search (keyword kw) text) blocked = true); [|congruence].
    apply existsb_exists. exists kw. by rewrite <- list_elem_of_In.
  - intros H. destruct (existsb _ blocked) eqn:E; [|done].
    apply existsb_exists in E as (kw & Hkw%list_elem_of_In & Hs).
    destruct (blocked_are_words kw Hkw) as [Hne Hw].
    apply search_keyword in Hs; [|done..]. by destruct (H kw Hkw).
Qed.

(** An empty or blank statement is refused. *)
Lemma blank_not_read_only (sql : string) :
  all_chars is_space sql = true → is_select_only sql = false.
Proof. intros Hs. unfold is_select_only. by rewrite (cleaned_blank sql Hs). Qed.

Lemma space_is_no_word (c : ascii) : is_space c = true → is_word c = false.
Proof. destruct c as [[] [] [] [] [] [] [] []]; by vm_compute. Qed.

Lemma is_space_upper (c : ascii) : is_space (upper_char c) = is_space c.
Proof. destruct c as [[] [] [] [] [] [] [] []]; by vm_compute. Qed.

Lemma first_char_word_no_space (kw : string) :
  kw ≠ "" → all_chars is_word kw = true →
  ∃ c rest, kw = String c rest ∧ is_space c = false.
Proof.
  destruct kw as [|c rest]; [done|]. intros _ [Hc _]%andb_true_iff.
  exists c, rest. split; [done|].
  destruct (is_space c) eqn:Hs; [|done]. apply space_is_no_word in Hs. congruence.
Qed.

Lemma last_char_word_no_space (kw : string) :
  kw ≠ "" → all_chars is_word kw = true →
  ∃ c, last_char kw = Some c ∧ is_space c = false.
Proof.
  intros Hne Hw. destruct (last_char kw) as [c|] eqn:Hl.
  - exists c. split; [done|]. pose proof (last_char_all is_word kw c Hw Hl).
    destruct (is_space c) eqn:Hs; [|done]. apply space_is_no_word in Hs. congruence.
  - destruct kw as [|c rest]; [done|]. simpl in Hl. by destruct (last_char rest).
Qed.

(** The first word of [split] is the first token. *)
Lemma split_go_token (t : string) :
  (split_go t).1 = until_space t ∧
  match cons_word (split_go t).1 (split_go t).2 with
  | w :: _ => w
  | [] => ""
  end = first_token t.
Proof.
  induction t as [|c t [IH1 IH2]]; [done|].
  cbn [split_go until_space first_token]. destruct (split_go t) as [w ws]. simpl in *.
  destruct (is_space c); simpl.
  - split; [done|]. unfold cons_word at 1. simpl. exact IH2.
  - by rewrite IH1.
Qed.

Lemma first_word_token (t : string) : first_word t = first_token t.
Proof.
  unfold first_word, split. destruct (split_go_token t) as [_ H].
  by destruct (split_go t) as [w ws].
Qed.

Lemma upper_lstrip (s : string) : upper (lstrip s) = lstrip (upper s).
Proof.
  unfold upper, lstrip. induction s as [|c s IH]; [done|].
  simpl. rewrite is_space_upper. by destruct (is_space c).
Qed.

Lemma upper_rstrip (s : string) : upper (rstrip s) = rstrip (upper s).
Proof.
  unfold upper, rstrip. induction s as [|c s IH]; [done|].
  simpl. rewrite is_space_upper, <- IH.
  destruct (rstrip_with is_space s); simpl; by destruct (is_space c).
Qed.

Lemma upper_strip (s : string) : upper (strip s) = strip (upper s).
Proof. unfold strip. by rewrite upper_lstrip, upper_rstrip. Qed.

Lemma first_token_lstrip (t : string) : first_token (lstrip t) = first_token t.
Proof.
  unfold lstrip. induction t as [|c t IH]; [done|].
  simpl. destruct (is_space c) eqn:Hc; [done|]. simpl. by rewrite Hc.
Qed.

Lemma until_space_rstrip (t : string) : until_space (rstrip t) = until_space t.
Proof.
  unfold rstrip. induction t as [|c t IH]; [done|].
  simpl. destruct (is_empty (rstrip_with is_space t) && is_space c) eqn:E.
  - apply andb_true_iff in E as [_ ->]. done.
  - simpl. by rewrite IH.
Qed.

Lemma first_token_rstrip (t : string) : first_token (rstrip t) = first_token t.
Proof.
  induction t as [|c t IH]; [done|].
  unfold rstrip in *. simpl.
  destruct (is_empty (rstrip_with is_space t) && is_space c) eqn:E.
  - apply andb_true_iff in E as [He ->]. rewrite <- IH.
    by destruct (rstrip_with is_space t).
  - simpl. rewrite IH. pose proof (until_space_rstrip t) as Hu. unfold rstrip in Hu.
    by rewrite Hu.
Qed.

Lemma first_token_strip (t : string) : first_token (strip t) = first_token t.
Proof. unfold strip. by rewrite first_token_lstrip, first_token_rstrip. Qed.

(** Stripping blanks around a text that has a word in it. *)
Lemma lstrip_app (a b : string) (d : ascii) (b' : string) :
  b = String d b' → is_space d = false → lstrip (a +:+ b) = lstrip a +:+ b.
Proof.
  intros -> Hd. unfold lstrip. induction a as [|c a IH].
  - simpl. by rewrite Hd.
  - rewrite str_app_cons. simpl. by destruct (is_space c).
Qed.

Lemma rstrip_app (a b : string) (d : ascii) :
  last_char a = Some d → is_space d = false → rstrip (a +:+ b) = a +:+ rstrip b.
Proof.
  unfold rstrip. revert d. induction a as [|c a IH]; intros d; [done|].
  rewrite !str_app_cons. cbn [rstrip_with last_char].
  destruct (last_char a) as [e|] eqn:Hl.
  - intros [= <-] He. rewrite (IH e eq_refl He).
    destruct a as [|a0 a]; [done|]. by rewrite str_app_cons.
  - intros [= <-] Hc. destruct a as [|a0 a]; [|simpl in Hl; by destruct (last_char a)].
    rewrite str_app_nil_l, Hc, andb_false_r. done.
Qed.

Lemma last_char_app (s t : string) : t ≠ "" → last_char (s +:+ t) = last_char t.
Proof.
  intros Ht. induction s as [|c s IH]; [done|].
  rewrite str_app_cons. simpl. rewrite IH.
  destruct t as [|d t]; [done|]. simpl. by destruct (last_char t).
Qed.

Lemma last_char_blank (l : string) :
  all_chars is_space l = true → word_before (last_char l) = false.
Proof.
  intros Hl. destruct (last_char l) as [c|] eqn:Hc; [|done]. simpl.
  apply space_is_no_word. by apply (last_char_all is_space l).
Qed.

Lemma word_after_blank (r : string) :
  all_chars is_space r = true → word_after r = false.
Proof.
  destruct r as [|c r]; [done|]. simpl. intros [Hc _]%andb_true_iff.
  by apply space_is_no_word.
Qed.

Lemma last_char_lstrip (s : string) :
  word_before (last_char s) = false → word_before (last_char (lstrip s)) = false.
Proof.
  unfold lstrip. induction s as [|c s IH]; [done|].
  cbn [lstrip_with]. destruct (is_space c) eqn:Hc; [|done].
  intros H. apply IH. simpl in H. destruct (last_char s); [done|].
  simpl. done.
Qed.

Lemma word_after_rstrip (s : string) :
  word_after s = false → word_after (rstrip s) = false.
Proof.
  unfold rstrip. destruct s as [|c s]; [done|]. simpl.
  by destruct (is_empty (rstrip_with is_space s) && is_space c).
Qed.

(** Blanks around a text neither hide nor add a standalone word. *)
Lemma standalone_strip (kw t : string) :
  kw ≠ "" → all_chars is_word kw = true →
  standalone kw (strip t) ↔ standalone kw t.
Proof.
  intros Hne Hw.
  destruct (first_char_word_no_space kw Hne Hw) as (k0 & krest & Hk & Hk0).
  destruct (last_char_word_no_space kw Hne Hw) as (k1 & Hl & Hk1).
  split.
  - intros (pre & post & Ht & Hb & Ha).
    destruct (rstrip_with_split is_space t) as (r & Hr & Hrb).
    destruct (lstrip_with_split is_space (rstrip t)) as (l & Hl' & Hlb).
    fold (rstrip t) in Hr. fold (lstrip (rstrip t)) in Hl'. fold (strip t) in Hl'.
    exists (l +:+ pre), (post +:+ r). split.
    + rewrite Hr, Hl', Ht. by rewrite !str_app_assoc.
    + split.
      * destruct pre as [|p pre].
        -- rewrite str_app_nil_r. by apply last_char_blank.
        -- by rewrite last_char_app.
      * destruct post as [|p post]; [|done].
        rewrite str_app_nil_l. by apply word_after_blank.
  - intros (pre & post & -> & Hb & Ha).
    exists (lstrip pre), (rstrip post). split.
    + unfold strip. rewrite <- !str_app_assoc.
      rewrite (rstrip_app (pre +:+ kw) post k1); [|by rewrite last_char_app|done].
      rewrite !str_app_assoc.
      rewrite (lstrip_app pre (kw +:+ rstrip post) k0 (krest +:+ rstrip post)); [done| |done].
      by rewrite Hk, str_app_cons.
    + split; [by apply last_char_lstrip|by apply word_after_rstrip].
Qed.

(** The verdict, read off the cleaned text. *)
Lemma classified (sql : string) :
  is_select_only sql = true ↔
  first_token (cleaned sql) ∈ leading_keywords ∧
  ∀ kw, kw ∈ blocked_keywords → ¬ standalone kw (cleaned sql).
Proof.
  change leading_keywords with allowed. change blocked_keywords with blocked.
  rewrite <- first_word_token. unfold is_select_only.
  destruct (str_in (first_word (cleaned sql)) blocked) eqn:Hb.
  - apply str_in_spec in Hb. split; [done|].
    intros [Ha _]. destruct (allowed_not_blocked _ Ha Hb).
  - destruct (existsb _ blocked) eqn:He.
    + split; [done|]. intros [_ Hk].
      apply (proj2 (no_blocked_keyword _)) in Hk. congruence.
    + pose proof (proj1 (no_blocked_keyword _) He). rewrite str_in_spec. tauto.
Qed.

(** Where the two substitutions of the classifier remove exactly the
    comments of the statement, its verdict is the one of the design
    document. *)
Lemma read_only_where_comments_agree (sql : string) :
  remove_all block_comment (remove_all line_comment sql) = without_comments sql →
  is_select_only sql = true ↔ read_only sql.
Proof.
  intros Hagree. rewrite classified. unfold read_only, cleaned.
  rewrite Hagree, upper_strip, first_token_strip.
  split; intros [Ht Hk]; (split; [done|]); intros kw Hkw Hs.
  all: destruct (blocked_are_words kw Hkw) as [Hne Hw]; apply (Hk kw Hkw).
  all: by apply (standalone_strip kw _ Hne Hw).
Qed.

Lemma remove_from_unmatched (r : regex) (marker : string) (prev : option ascii)
    (s : string) :
  (∀ prev s, String.prefix marker s = false → match_at r prev s = None) →
  contains marker s = false → remove_from r prev s 0 = s.
Proof.
  intros Hr. revert prev. induction s as [|c s IH]; intros prev.
  - intros _. cbn [remove_from]. by destruct (match_at r prev "") as [[? ?]|].
  - cbn [contains]. intros [Hp Hs]%orb_false_iff.
    cbn [remove_from]. rewrite (Hr prev _ Hp). by rewrite IH.
Qed.

Lemma match_literal_first (marker : string) (r : regex) (prev : option ascii) (s : string) :
  String.prefix marker s = false → match_at (RSeq (lit marker) r) prev s = None.
Proof.
  intros Hp. unfold match_at. cbn [run]. rewrite run_lit.
  destruct (strip_prefix marker s) as [rest|] eqn:Hs; [|done].
  apply strip_prefix_spec in Hs as ->. by rewrite prefix_app in Hp.
Qed.

Lemma prefix_two (a b c d : ascii) (s : string) :
  String.prefix (String a (String b "")) (String c (String d s))
    = Ascii.eqb c a && Ascii.eqb d b.
Proof.
  simpl. destruct (ascii_dec a c) as [->|Hac].
  - rewrite Ascii.eqb_refl. destruct (ascii_dec b d) as [->|Hbd].
    + rewrite Ascii.eqb_refl. by destruct s.
    + symmetry. apply Ascii.eqb_neq. congruence.
  - assert (Ascii.eqb c a = false) as -> by (apply Ascii.eqb_neq; congruence). done.
Qed.

(** A text that opens no comment is its own text without comments, for the
    reader and for the two substitutions. *)
Lemma uncommented_plain (s : string) :
  contains "--" s = false → contains "/*" s = false → without_comments s = s.
Proof.
  unfold without_comments. induction s as [|c s IH]; [done|].
  cbn [contains]. intros [Hd Hds]%orb_false_iff [Hb Hbs]%orb_false_iff.
  cbn [uncommented]. destruct s as [|d s]; [done|].
  rewrite prefix_two in Hd, Hb. rewrite Hd, Hb. cbn [andb]. by rewrite IH.
Qed.

Lemma cleaned_plain (s : string) :
  contains "--" s = false → contains "/*" s = false →
  remove_all block_comment (remove_all line_comment s) = s.
Proof.
  intros Hd Hb. unfold remove_all.
  rewrite (remove_from_unmatched line_comment "--" None s); [|clear|done].
  2: { intros prev t. apply match_literal_first. }
  rewrite (remove_from_unmatched block_comment "/*" None s); [done|clear|done].
  intros prev t. apply match_literal_first.
Qed.

(** The classification of a statement that opens no comment is the one of
    the design document. *)
Lemma is_select_only_plain (sql : string) :
  contains "--" sql = false → contains "/*" sql = false →
  is_select_only sql = true ↔ read_only sql.
Proof.
  intros Hd Hb. apply read_only_where_comments_agree.
  by rewrite cleaned_plain, uncommented_plain.
Qed.

(** A commented statement on which the substitutions and the reader
    agree is classified as the design document says. *)
Example commented_select_accepted :
  is_select_only "/* report */ select 1 -- done" = true ∧
  read_only "/* report */ select 1 -- done".
Proof.
  split; [reflexivity|].
  apply (read_only_where_comments_agree "/* report */ select 1 -- done"); reflexivity.
Qed.

(** C1.  The claim fails on the code.  In [comment_in_comment] the block
    comment [/*--*/] is followed by [DELETE FROM t]: the first keyword of
    the statement is blocked.  The classifier removes what follows a [--]
    first, also inside a block comment, which here takes the end of the
    block comment and the [DELETE] with it; the [/*] that is left then
    closes on the next line, and the text that remains is [SELECT 1].  The
    statement is accepted, and [run_query] sends it to the driver as it
    was given. *)
Theorem comment_in_comment_accepted :
  is_select_only comment_in_comment = true ∧
  cleaned comment_in_comment = "SELECT 1" ∧
  without_comments comment_in_comment = " DELETE FROM t
*/ select 1" ∧
  first_token (upper (without_comments comment_in_comment)) = "DELETE" ∧
  ¬ read_only comment_in_comment ∧
  (run_query_safe.run_query comment_in_comment "DWH" 100 30 false
     (quiet_world {[ "DWH_TYPE" := "oracle" ]}) []).2
    = [Connect "oracle" "DWH"; Cursor;
       Execute ("SELECT * FROM (" +:+ comment_in_comment +:+ ") WHERE ROWNUM <= 100")
               NoParams;
       FetchAll; Close].
Proof.
  split; [reflexivity|]. split; [reflexivity|]. split; [reflexivity|].
  split; [reflexivity|]. split; [|reflexivity].
  intros [Ht _]. revert Ht.
  change (first_token _) with "DELETE". unfold leading_keywords.
  rewrite !elem_of_cons, elem_of_nil. intuition discriminate.
Qed.

End classifier.

(** ** The safe executor and the plan retrieval *)

Section executor.
Import run_query_safe.

Lemma bind_unfold {A B} (m : M A) (f : A → M B) (w : world) (tr : list call) :
  (m ≫= f) w tr =
    match m w tr with
    | (inr a, tr') => f a w tr'
    | (inl e, tr') => (inl e, tr')
    end.
Proof. reflexivity. Qed.

(** Reading a successful run backwards. *)
Lemma bind_inr {A B} (m : M A) (f : A → M B) (w : world) (tr tr' : list call) (b : B) :
  (m ≫= f) w tr = (inr b, tr') →
  ∃ a tr1, m w tr = (inr a, tr1) ∧ f a w tr1 = (inr b, tr').
Proof.
  rewrite bind_unfold. destruct (m w tr) as [[e|a] tr1]; [done|]. by exists a, tr1.
Qed.

Lemma finally_inr {A} (body : M A) (cleanup : M unit) (w : world)
    (tr tr' : list call) (a : A) :
  finally body cleanup w tr = (inr a, tr') → ∃ tr1, body w tr = (inr a, tr1).
Proof.
  unfold finally. destruct (body w tr) as [r tr1].
  destruct (cleanup w tr1) as [[e|[]] tr2]; [done|]. intros [= -> ->]. by exists tr1.
Qed.

Ltac inv_bind H :=
  let a := fresh "a" in
  let tr1 := fresh "tr" in
  let Hm := fresh "Hm" in
  apply bind_inr in H as (a & tr1 & Hm & H).

Ltac inv_finally H :=
  let tr1 := fresh "tr" in
  apply finally_inr in H as (tr1 & H).

(** C2, as stated, fails for [run_query]: it classifies the statement
    after trimming it and dropping its trailing semicolons, so [SELECT;],
    which the classifier rejects, is run. *)
Lemma unnormalized_counterexample :
  ¬ (∀ sql db_alias row_limit timeout count_only w tr,
       is_select_only sql = false →
       run_query sql db_alias row_limit timeout count_only w tr
         = (inl (ValueError run_query_safe.not_read_only), tr)).
Proof.
  intros H.
  specialize (H "SELECT;" "DWH" 100 30 false
                (quiet_world {[ "DWH_TYPE" := "oracle" ]}) [] eq_refl).
  vm_compute in H. discriminate H.
Qed.

(** C2, amended.  [run_query] fails with its not-read-only error, and makes
    no driver call, for every statement that fails classification once
    trimmed and rid of its trailing semicolons; [explain_query] does so for
    every statement that fails classification as it is.  This holds in
    every world, so whatever the dialect of the alias, and it covers
    [DELETE FROM t]. *)
Theorem not_read_only_before_database (sql db_alias : string)
    (row_limit timeout : Z) (count_only : bool) (w : world) (tr : list call) :
  (is_select_only (normalized sql) = false →
   run_query sql db_alias row_limit timeout count_only w tr
     = (inl (ValueError run_query_safe.not_read_only), tr)) ∧
  (is_select_only sql = false →
   explain_query.explain_query sql db_alias w tr
     = (inl (ValueError explain_query.not_read_only), tr)) ∧
  is_select_only "DELETE FROM t" = false ∧
  is_select_only (normalized "DELETE FROM t") = false.
Proof.
  split; [|split; [|split; reflexivity]].
  - intros H. unfold run_query. by rewrite H.
  - intros H. unfold explain_query.explain_query. by rewrite H.
Qed.

Lemma not_read_only_before_database_witness :
  run_query "DELETE FROM t" "DWH" 100 30 false
      (quiet_world {[ "DWH_TYPE" := "sqlserver" ]}) []
    = (inl (ValueError run_query_safe.not_read_only), []) ∧
  explain_query.explain_query "DELETE FROM t" "DWH"
      (quiet_world {[ "DWH_TYPE" := "sqlserver" ]}) []
    = (inl (ValueError explain_query.not_read_only), []).
Proof.
  split.
  - exact (proj1 (not_read_only_before_database "DELETE FROM t" "DWH" 100 30 false
                    (quiet_world {[ "DWH_TYPE" := "sqlserver" ]}) []) eq_refl).
  - exact (proj1 (proj2 (not_read_only_before_database "DELETE FROM t" "DWH" 100 30 false
                    (quiet_world {[ "DWH_TYPE" := "sqlserver" ]}) [])) eq_refl).
Defined.

(** What [run_query] promises about the result of a query that is not a
    count. *)
Lemma run_query_result (sql db_alias : string) (row_limit timeout : Z)
    (w : world) (tr tr' : list call) (res : result) :
  run_query sql db_alias row_limit timeout false w tr = (inr res, tr') →
  truncated res = bool_decide (row_limit ≤ Z.of_nat (length (rows res))) ∧
  row_count res = Z.of_nat (length (rows res)) ∧
  run_query_safe.row_limit res = Some row_limit ∧
  total_rows res = None.
Proof.
  unfold run_query. destruct (negb _); [done|]. intros H.
  do 2 inv_bind H. unfold get_connection in H. do 3 inv_bind H.
  inv_finally H. do 8 inv_bind H. by injection H as <- <-.
Qed.

(** C4, as stated, fails: with a cap below zero the flag is set although
    the row count differs from the cap.  (On Oracle [ROWNUM <= -1] is a
    valid predicate that no row satisfies.) *)
Lemma truncated_counterexample :
  ¬ (∀ sql db_alias cap timeout w tr tr' res,
       run_query sql db_alias cap timeout false w tr = (inr res, tr') →
       (truncated res = true ↔ row_count res = cap)).
Proof.
  intros H.
  specialize (H "select 1 from dual" "DWH" (-1) 30
                (quiet_world {[ "DWH_TYPE" := "oracle" ]}) []).
  vm_compute in H. destruct (H _ _ eq_refl) as [H1 _].
  discriminate (H1 eq_refl).
Qed.

(** What a successful driver call adds to the trace. *)
Lemma execute_inr (sql : string) (ps : params) (w : world) (tr tr1 : list call) :
  execute sql ps w tr = (inr tt, tr1) → tr1 = tr ++ [Execute sql ps].
Proof.
  cbv [execute emit fail_with calls_so_far mbind M_bind bind ask mret M_ret ret raise].
  destruct (executing w tr sql ps); [done|]. by intros [= <-].
Qed.

Lemma fetchall_inr (w : world) (tr tr1 : list call) (rs : list row) :
  fetchall w tr = (inr rs, tr1) →
  tr1 = tr ++ [FetchAll] ∧ fetching_all w (tr ++ [FetchAll]) = inr rs.
Proof.
  cbv [fetchall emit lift calls_so_far mbind M_bind bind ask mret M_ret ret raise].
  destruct (fetching_all w (tr ++ [FetchAll])); [done|]. by intros [= <- <-].
Qed.

Lemma time_time_inr (w : world) (tr tr1 : list call) (t : Z) :
  time_time w tr = (inr t, tr1) → tr1 = tr.
Proof. by intros [= _ <-]. Qed.

Lemma description_inr (w : world) (tr tr1 : list call) (d : option (list row)) :
  description w tr = (inr d, tr1) → tr1 = tr.
Proof. by intros [= _ <-]. Qed.

Lemma lift_inr {A} (r : exn + A) (w : world) (tr tr1 : list call) (a : A) :
  lift r w tr = (inr a, tr1) → tr1 = tr.
Proof. destruct r; [done|]. by intros [= _ <-]. Qed.

Lemma finally_close_inr {A} (body : M A) (w : world) (tr tr' : list call) (a : A) :
  finally body close w tr = (inr a, tr') →
  ∃ tr1, body w tr = (inr a, tr1) ∧ tr' = tr1 ++ [Close].
Proof.
  unfold finally. destruct (body w tr) as [[e|b] tr1]; [done|].
  cbv [close emit]. intros [= <- <-]. by exists tr1.
Qed.

(** C4, amended.  A query that is not a count and returns has fetched
    once, right after executing the bounded statement and right before
    closing the connection.  The rows of the result are the rows that this
    fetch found, [row_count] is their number, and the flag [truncated] is
    set exactly when that number is at least the row cap; hence, whenever
    the engine returned no more rows than the cap, the flag is set exactly
    when the number of fetched rows equals the cap. *)
Theorem truncated_at_row_cap (sql db_alias : string) (cap timeout : Z)
    (w : world) (tr tr' : list call) (res : result) :
  run_query sql db_alias cap timeout false w tr = (inr res, tr') →
  ∃ db_type before fetched,
    get_db_type (environ w) db_alias = inr db_type ∧
    tr' = before ++ [Execute (_wrap_with_limit (normalized sql) cap db_type) NoParams;
                     FetchAll; Close] ∧
    fetching_all w (before ++ [Execute (_wrap_with_limit (normalized sql) cap db_type)
                                       NoParams; FetchAll]) = inr fetched ∧
    rows res = fetched ∧
    row_count res = Z.of_nat (length fetched) ∧
    (truncated res = true ↔ cap ≤ Z.of_nat (length fetched)) ∧
    (Z.of_nat (length fetched) ≤ cap →
     (truncated res = true ↔ Z.of_nat (length fetched) = cap)).
Proof.
  unfold run_query. destruct (negb _); [done|]. intros H.
  do 2 inv_bind H. injection Hm as <- <-.
  destruct (get_db_type (environ w) db_alias) as [e|db_type] eqn:Ht; [done|].
  injection Hm0 as <- <-. unfold get_connection in H.
  do 3 inv_bind H. apply finally_close_inr in H as (tr4 & H & ->).
  do 3 inv_bind H.
  inv_bind H. destruct a5. apply execute_inr in Hm5 as ->.
  inv_bind H. apply fetchall_inr in Hm5 as [-> Hfetch].
  inv_bind H. apply time_time_inr in Hm5 as ->.
  inv_bind H. apply description_inr in Hm5 as ->.
  inv_bind H. apply lift_inr in Hm5 as ->.
  injection H as <- <-. simpl.
  rewrite <- app_assoc in Hfetch. rewrite <- !app_assoc.
  eexists db_type, _, _. split; [done|]. split; [reflexivity|].
  split; [exact Hfetch|]. split; [done|]. split; [done|].
  rewrite bool_decide_eq_true. split; [done|]. unfold row in *. lia.
Qed.

Lemma truncated_at_row_cap_witness :
  match run_query "select id from t" "DWH" 2 30 false
          (fetching_world [[PInt 1]; [PInt 2]]) [] with
  | (inr res, _) =>
      rows res = [[PInt 1]; [PInt 2]] ∧ row_count res = 2 ∧ truncated res = true
  | (inl _, _) => False
  end.
Proof.
  destruct (run_query "select id from t" "DWH" 2 30 false
              (fetching_world [[PInt 1]; [PInt 2]]) [])
    as [[e|res] tr'] eqn:Hrun.
  - vm_compute in Hrun. discriminate Hrun.
  - destruct (truncated_at_row_cap _ _ _ _ _ _ _ _ Hrun)
      as (db_type & before & fetched & _ & _ & Hfetch & Hrows & Hcount & Htrunc & _).
    injection Hfetch as <-. split; [done|]. split; [done|]. apply Htrunc. simpl. lia.
Defined.

End executor.

(** ** The plan analyzers *)

Section plan_analyzers.
Import explain_query.

Lemma or_no_issues_list (msg : string) (found : list issue) :
  Forall finding found →
  issue_list_of found (or_no_issues (Issue OK NO_ISSUES msg) found).
Proof.
  intros Hf. destruct found as [|i found]; simpl.
  - split; [done|]. split; [|done]. intros _. by exists msg.
  - split; [done|]. split; [done|]. intros _. by split.
Qed.

Lemma one_if_finding (b : bool) (i : issue) :
  finding i → Forall finding (if b then [i] else []).
Proof. intros Hi. destruct b; [by apply Forall_singleton|apply Forall_nil_2]. Qed.

Lemma oracle_findings_sound (plan_lines : list string) :
  Forall finding (oracle_findings plan_lines).
Proof.
  unfold oracle_findings. repeat apply Forall_app_2.
  - unfold oracle_full_scans. destruct (contains _ _); [|apply Forall_nil_2].
    apply Forall_fmap, Forall_true. by intros t.
  - unfold oracle_cartesian. by apply one_if_finding.
  - unfold oracle_hash_join. by apply one_if_finding.
  - unfold oracle_high_cost. destruct (findall _ _); [apply Forall_nil_2|].
    by apply one_if_finding.
Qed.

Lemma mysql_findings_sound (rows : list (gmap string pyval)) :
  Forall finding (mysql_findings rows).
Proof.
  unfold mysql_findings. induction rows as [|r rows IH]; [apply Forall_nil_2|].
  simpl. apply Forall_app_2; [|exact IH].
  unfold mysql_row_findings. repeat apply Forall_app_2; by apply one_if_finding.
Qed.

Lemma sqlserver_findings_sound (plan_lines : list string) :
  Forall finding (sqlserver_findings plan_lines).
Proof.
  unfold sqlserver_findings. repeat apply Forall_app_2; by apply one_if_finding.
Qed.

Lemma pg_costly_loops_sound (float_gt : string → option bool) (costs : list string)
    (found : list issue) :
  pg_costly_loops float_gt costs = inr found → Forall finding found.
Proof.
  revert found. induction costs as [|c costs IH]; intros found; simpl.
  - intros [= <-]. apply Forall_nil_2.
  - destruct (float_gt c) as [high|]; [|done].
    destruct (pg_costly_loops float_gt costs) as [e|found']; [done|].
    intros [= <-]. apply Forall_app_2; [by apply one_if_finding|by apply IH].
Qed.

Lemma pg_findings_sound (float_gt : string → option bool) (plan_lines : list string)
    (found : list issue) :
  pg_findings float_gt plan_lines = inr found → Forall finding found.
Proof.
  unfold pg_findings. set (full_text := PyStr.join _ plan_lines).
  destruct (pg_nested_loops float_gt full_text) as [e|loops] eqn:Hn; [done|].
  intros [= <-]. apply Forall_app_2.
  - unfold pg_seq_scans. destruct (contains _ _); [|apply Forall_nil_2].
    apply Forall_fmap, Forall_true. by intros t.
  - unfold pg_nested_loops in Hn. destruct (contains _ _).
    + by eapply pg_costly_loops_sound.
    + injection Hn as <-. apply Forall_nil_2.
Qed.

Lemma pg_costly_loops_total (float_gt : string → option bool) (costs : list string) :
  (∀ c, is_Some (float_gt c)) → ∃ found, pg_costly_loops float_gt costs = inr found.
Proof.
  intros Hf. induction costs as [|c costs (found & IH)]; simpl; [by eexists|].
  destruct (Hf c) as [high ->]. rewrite IH. by eexists.
Qed.

(** C5.  The issue list of every analyzer is never empty; it is the single
    OK/NO_ISSUES record when no detection rule appended a record, and holds
    no OK record when one did.  The Oracle, MySQL and SQL Server analyzers
    return for every plan; so does the PostgreSQL one wherever [float]
    accepts each cost text that the pattern extracts, and what it returns
    is such a list. *)
Theorem issue_lists_never_empty :
  (∀ plan_lines,
     issue_list_of (oracle_findings plan_lines) (_analyze_oracle_plan plan_lines)) ∧
  (∀ rows plan_json,
     issue_list_of (mysql_findings rows) (_analyze_mysql_plan rows plan_json)) ∧
  (∀ plan_lines,
     issue_list_of (sqlserver_findings plan_lines) (_analyze_sqlserver_plan plan_lines)) ∧
  (∀ float_gt plan_lines result,
     _analyze_pg_plan float_gt plan_lines = inr result →
     ∃ found, pg_findings float_gt plan_lines = inr found ∧ issue_list_of found result) ∧
  (∀ float_gt plan_lines,
     (∀ c, is_Some (float_gt c)) →
     ∃ result, _analyze_pg_plan float_gt plan_lines = inr result).
Proof.
  split; [|split; [|split; [|split]]].
  - intros plan_lines. apply or_no_issues_list, oracle_findings_sound.
  - intros rows plan_json. apply or_no_issues_list, mysql_findings_sound.
  - intros plan_lines. apply or_no_issues_list, sqlserver_findings_sound.
  - intros float_gt plan_lines result. unfold _analyze_pg_plan.
    destruct (pg_findings float_gt plan_lines) as [e|found] eqn:Hf; [done|].
    intros [= <-]. exists found. split; [done|].
    by eapply or_no_issues_list, pg_findings_sound.
  - intros float_gt plan_lines Hf. unfold _analyze_pg_plan, pg_findings, pg_nested_loops.
    destruct (contains "Nested Loop" _); [|by eexists].
    destruct (pg_costly_loops_total float_gt
                (findall nested_loop_cost (PyStr.join "
" plan_lines)) Hf) as [found ->].
    by eexists.
Qed.

Lemma issue_lists_never_empty_witness :
  ∃ result,
    _analyze_pg_plan (λ _, Some true) ["Nested Loop  (cost=0.00..200000.00 rows=1)"]
      = inr result ∧ result ≠ [].
Proof.
  destruct (proj2 (proj2 (proj2 (proj2 issue_lists_never_empty)))
              (λ _, Some true) ["Nested Loop  (cost=0.00..200000.00 rows=1)"]
              (λ _, ex_intro _ true eq_refl)) as [result H].
  exists result. split; [exact H|].
  destruct (proj1 (proj2 (proj2 (proj2 issue_lists_never_empty))) _ _ _ H)
    as (found & _ & Hne & _).
  exact Hne.
Defined.

(** No match of a pattern that begins with a literal, in a text that does
    not contain the literal. *)
Lemma findall_without_literal (r : regex) (kw : string) (prev : option ascii)
    (s : string) (skip : nat) :
  (∀ prev' s', is_Some (match_at r prev' s') → String.prefix kw s' = true) →
  contains kw s = false → findall_from r prev s skip = [].
Proof.
  intros Hr. revert prev skip. induction s as [|c s IH]; intros prev skip Hc.
  - destruct skip; [|done]. cbn [findall_from].
    destruct (match_at r prev "") as [[cap rest]|] eqn:Hm; [|done].
    cbn [contains] in Hc. apply orb_false_iff in Hc as [Hc _].
    rewrite (Hr prev "") in Hc; [done|by rewrite Hm].
  - cbn [contains] in Hc. apply orb_false_iff in Hc as [Hp Hc].
    destruct skip; cbn [findall_from]; [|by apply IH].
    destruct (match_at r prev (String c s)) as [[cap rest]|] eqn:Hm; [|by apply IH].
    rewrite (Hr prev (String c s)) in Hp; [done|by rewrite Hm].
Qed.

Lemma strip_prefix_prefix (kw s rest : string) :
  strip_prefix kw s = Some rest → String.prefix kw s = true.
Proof. intros ->%strip_prefix_spec. apply prefix_app. Qed.

(** The table names are extracted whether or not the [in] test is made
    first. *)
Lemma oracle_full_scans_findall (plan_lines : list string) :
  oracle_full_scans (PyStr.join "
" plan_lines) = oracle_full_scan <$> full_scan_tables plan_lines.
Proof.
  unfold oracle_full_scans, full_scan_tables.
  destruct (contains _ _) eqn:Hc; [done|].
  unfold findall.
  rewrite (findall_without_literal table_access_full "TABLE ACCESS FULL"); [done| |done].
  intros prev s [o Hm]. unfold match_at, table_access_full in Hm.
  cbn [seq_of run] in Hm. rewrite run_lit in Hm.
  destruct (strip_prefix "TABLE ACCESS FULL" s) eqn:Hp; [|done].
  by eapply strip_prefix_prefix.
Qed.

Lemma full_scan_records_one (b : bool) (i : issue) :
  issue_type i ≠ FULL_TABLE_SCAN → full_scan_records (if b then [i] else []) = [].
Proof.
  intros Hi. destruct b; [|done]. unfold full_scan_records.
  by rewrite filter_cons_False.
Qed.

(** C9, as stated, fails: a table that is scanned twice gets two records. *)
Lemma distinct_tables_counterexample :
  ¬ (∀ plan_lines,
       full_scan_records (_analyze_oracle_plan plan_lines)
         = oracle_full_scan <$> remove_dups (full_scan_tables plan_lines)).
Proof.
  intros H.
  specialize (H ["|  TABLE ACCESS FULL | EMP |"; "|  TABLE ACCESS FULL | EMP |"]).
  vm_compute in H. discriminate H.
Qed.

(** C9, amended.  The Oracle analyzer emits one FULL_TABLE_SCAN warning per
    match of the table-access pattern, in the order of the plan and naming
    the table of the match, a table scanned twice being reported twice; for
    the plan line [TABLE ACCESS FULL | EMPLOYEES |] the issue list is the
    single FULL_TABLE_SCAN warning that names EMPLOYEES, with no OK
    record. *)
Theorem full_scan_per_match (plan_lines : list string) :
  full_scan_records (_analyze_oracle_plan plan_lines)
    = oracle_full_scan <$> full_scan_tables plan_lines ∧
  (∀ t, issue_severity (oracle_full_scan t) = WARNING ∧
        issue_type (oracle_full_scan t) = FULL_TABLE_SCAN ∧
        contains t (message (oracle_full_scan t)) = true) ∧
  full_scan_tables ["TABLE ACCESS FULL | EMPLOYEES |"] = ["EMPLOYEES"] ∧
  _analyze_oracle_plan ["TABLE ACCESS FULL | EMPLOYEES |"]
    = [oracle_full_scan "EMPLOYEES"].
Proof.
  split; [|split; [|split; reflexivity]].
  - unfold _analyze_oracle_plan, oracle_findings.
    rewrite oracle_full_scans_findall.
    set (scans := oracle_full_scan <$> full_scan_tables plan_lines).
    assert (full_scan_records scans = scans) as Hscans.
    { unfold scans, full_scan_records. clear scans.
      induction (full_scan_tables plan_lines) as [|t ts IH]; [done|].
      rewrite fmap_cons, filter_cons_True by done. by rewrite IH. }
    set (others := oracle_cartesian _ ++ oracle_hash_join _ ++ oracle_high_cost _).
    assert (full_scan_records others = []) as Hothers.
    { unfold others, full_scan_records. rewrite !filter_app.
      unfold oracle_cartesian, oracle_hash_join, oracle_high_cost.
      fold (full_scan_records (if contains "MERGE JOIN CARTESIAN" (PyStr.join "
" plan_lines) then [Issue CRITICAL CARTESIAN_PRODUCT
         "Cartesian product detected! Kiểm tra lại JOIN conditions."] else [])).
      rewrite full_scan_records_one; [|done].
      fold (full_scan_records (if contains "HASH JOIN" (PyStr.join "
" plan_lines) then [Issue INFO HASH_JOIN
         "Hash Join detected. OK cho bảng lớn, nhưng kiểm tra memory."] else [])).
      rewrite full_scan_records_one; [|done].
      destruct (findall cost_cell _); [done|].
      by apply full_scan_records_one. }
    assert (or_no_issues no_issues_long (scans ++ others) = scans ++ others ∨
            scans ++ others = [] ∧
            or_no_issues no_issues_long (scans ++ others) = [no_issues_long])
      as [->|[Hnil ->]] by (destruct (scans ++ others); [by right|by left]).
    + unfold full_scan_records in *.
      by rewrite filter_app, Hscans, Hothers, app_nil_r.
    + by apply app_eq_nil in Hnil as [-> _].
  - intros t. split; [done|]. split; [done|].
    unfold oracle_full_scan, message. apply contains_app_r.
    rewrite <- (str_app_nil_l (t +:+ _)). apply contains_infix.
Qed.

End plan_analyzers.

(** ** The relationship resolver *)

Section relationships.
Import find_relationships.

Lemma ask_bind {A} (f : world → M A) (w : world) (tr : list call) :
  (ask ≫= f) w tr = f w w tr.
Proof. reflexivity. Qed.

Lemma lift_inr_bind {A B} (a : A) (f : A → M B) (w : world) (tr : list call) :
  (lift (inr a) ≫= f) w tr = f a w tr.
Proof. reflexivity. Qed.

Lemma lift_inl_bind {A B} (e : exn) (f : A → M B) (w : world) (tr : list call) :
  (lift (inl e) ≫= f) w tr = (inl e, tr).
Proof. reflexivity. Qed.

(** [find_relationships] once the dialect of the alias is known to have an
    entry in [_FK_FUNCS] and the connection is made. *)
Lemma find_relationships_connected (schema table_name db_alias db_type : string)
    (fk_func : string → string → M (list edge))
    (hint_func : string → string → M (list hint)) (w : world) (tr : list call) :
  get_db_type (environ w) db_alias = inr db_type →
  _FK_FUNCS !! db_type = Some (fk_func, hint_func) →
  find_relationships schema table_name db_alias w tr =
    match connecting w db_type db_alias with
    | Some e => (inl e, tr ++ [Connect db_type db_alias])
    | None =>
        match fk_func schema table_name w ((tr ++ [Connect db_type db_alias]) ++ [Cursor]) with
        | (inl e, tr1) => (inl e, tr1 ++ [Close])
        | (inr fks, tr1) =>
            match hint_func schema table_name w tr1 with
            | (inl e, tr2) => (inl e, tr2 ++ [Close])
            | (inr hints, tr2) =>
                (inr (Relationships schema table_name db_type fks hints), tr2 ++ [Close])
            end
        end
    end.
Proof.
  intros Ht Hf. unfold find_relationships.
  rewrite ask_bind, Ht, lift_inr_bind, Hf, lift_inr_bind.
  unfold get_connection. rewrite bind_unfold, ask_bind, Ht, lift_inr_bind.
  cbv [connect finally cursor close emit fail_with mbind M_bind bind ask mret M_ret
       ret raise].
  destruct (connecting w db_type db_alias) as [e|]; [done|].
  destruct (fk_func schema table_name w _) as [[e|fks] tr1]; [done|].
  destruct (hint_func schema table_name w tr1) as [[e|hints] tr2]; done.
Qed.

Lemma find_relationships_unsupported (schema table_name db_alias db_type : string)
    (w : world) (tr : list call) :
  get_db_type (environ w) db_alias = inr db_type →
  _FK_FUNCS !! db_type = None →
  find_relationships schema table_name db_alias w tr = (inl (KeyError db_type), tr).
Proof.
  intros Ht Hf. unfold find_relationships.
  by rewrite ask_bind, Ht, lift_inr_bind, Hf, lift_inl_bind.
Qed.

Lemma find_relationships_unresolved (schema table_name db_alias : string) (e : exn)
    (w : world) (tr : list call) :
  get_db_type (environ w) db_alias = inl e →
  find_relationships schema table_name db_alias w tr = (inl e, tr).
Proof.
  intros Ht. unfold find_relationships. by rewrite ask_bind, Ht, lift_inl_bind.
Qed.

(** C6, as stated, fails for SQL Server: [_FK_FUNCS] has no entry for it,
    so [find_relationships] raises [KeyError] even when every driver call
    would succeed. *)
Lemma sqlserver_relationships_counterexample :
  ¬ (∀ d, d ≠ ORACLE →
     ∀ schema table_name db_alias env,
       get_db_type env db_alias = inr (tag d) →
       ∃ r tr',
         find_relationships schema table_name db_alias (quiet_world env) []
           = (inr r, tr') ∧
         naming_hints r = []).
Proof.
  intros H.
  assert (H1 : SQLSERVER ≠ ORACLE) by done.
  assert (H2 : get_db_type {[ "DWH_TYPE" := "sqlserver" ]} "DWH" = inr (tag SQLSERVER))
    by (vm_compute; reflexivity).
  destruct (H SQLSERVER H1 "S" "T" "DWH" {[ "DWH_TYPE" := "sqlserver" ]} H2)
    as (r & tr' & Hr & _).
  vm_compute in Hr. discriminate Hr.
Qed.

(** C6, amended.  The hint discovery of MySQL and of PostgreSQL returns the
    empty sequence without a driver call, so for these two dialects
    [find_relationships] returns, with the foreign keys of the catalog and
    no naming hint, whenever the connection is made and the foreign-key
    queries return.  For SQL Server it raises [KeyError] before any driver
    call.  Hence a result that holds a naming hint comes from Oracle. *)
Theorem naming_hints_only_from_oracle (schema table_name db_alias : string)
    (w : world) (tr : list call) :
  _mysql_find_naming_hints schema table_name w tr = (inr [], tr) ∧
  _pg_find_naming_hints schema table_name w tr = (inr [], tr) ∧
  (get_db_type (environ w) db_alias = inr "mysql" →
   connecting w "mysql" db_alias = None →
   ∀ fks tr1,
     _mysql_find_fk schema table_name w ((tr ++ [Connect "mysql" db_alias]) ++ [Cursor])
       = (inr fks, tr1) →
     find_relationships schema table_name db_alias w tr
       = (inr (Relationships schema table_name "mysql" fks []), tr1 ++ [Close])) ∧
  (get_db_type (environ w) db_alias = inr "postgresql" →
   connecting w "postgresql" db_alias = None →
   ∀ fks tr1,
     _pg_find_fk schema table_name w ((tr ++ [Connect "postgresql" db_alias]) ++ [Cursor])
       = (inr fks, tr1) →
     find_relationships schema table_name db_alias w tr
       = (inr (Relationships schema table_name "postgresql" fks []), tr1 ++ [Close])) ∧
  (get_db_type (environ w) db_alias = inr "sqlserver" →
   find_relationships schema table_name db_alias w tr
     = (inl (KeyError "sqlserver"), tr)) ∧
  (∀ r tr',
     find_relationships schema table_name db_alias w tr = (inr r, tr') →
     naming_hints r ≠ [] → rel_db_type r = "oracle").
Proof.
  split; [done|]. split; [done|]. split; [|split; [|split]].
  - intros Ht Hc fks tr1 Hfk.
    rewrite (find_relationships_connected _ _ _ "mysql" _mysql_find_fk
               _mysql_find_naming_hints); [|done..].
    by rewrite Hc, Hfk.
  - intros Ht Hc fks tr1 Hfk.
    rewrite (find_relationships_connected _ _ _ "postgresql" _pg_find_fk
               _pg_find_naming_hints); [|done..].
    by rewrite Hc, Hfk.
  - intros Ht. by apply find_relationships_unsupported.
  - intros r tr' Hr Hhints.
    destruct (get_db_type (environ w) db_alias) as [e|t] eqn:Ht.
    { by rewrite (find_relationships_unresolved _ _ _ e) in Hr. }
    destruct (get_db_type_dialect _ _ _ Ht) as [[] ->]; simpl in *.
    + rewrite (find_relationships_connected _ _ _ "oracle" _oracle_find_fk
                 _oracle_find_naming_hints) in Hr; [|done..].
      repeat case_match; by simplify_eq.
    + rewrite (find_relationships_connected _ _ _ "mysql" _mysql_find_fk
                 _mysql_find_naming_hints) in Hr; [|done..].
      destruct (connecting w "mysql" db_alias); [done|].
      destruct (_mysql_find_fk _ _ _ _) as [[e|fks] tr1]; [done|].
      change (_mysql_find_naming_hints schema table_name w tr1)
        with (@inr exn (list hint) [], tr1) in Hr.
      injection Hr as <- _. by destruct Hhints.
    + rewrite (find_relationships_connected _ _ _ "postgresql" _pg_find_fk
                 _pg_find_naming_hints) in Hr; [|done..].
      destruct (connecting w "postgresql" db_alias); [done|].
      destruct (_pg_find_fk _ _ _ _) as [[e|fks] tr1]; [done|].
      change (_pg_find_naming_hints schema table_name w tr1)
        with (@inr exn (list hint) [], tr1) in Hr.
      injection Hr as <- _. by destruct Hhints.
    + by rewrite (find_relationships_unsupported _ _ _ "sqlserver") in Hr.
Qed.

Lemma naming_hints_only_from_oracle_witness :
  find_relationships "S" "T" "DWH" (quiet_world {[ "DWH_TYPE" := "sqlserver" ]}) []
    = (inl (KeyError "sqlserver"), []) ∧
  find_relationships "S" "T" "DWH" (quiet_world {[ "DWH_TYPE" := "mysql" ]}) []
    = (inr (Relationships "S" "T" "mysql" [] []),
       [Connect "mysql" "DWH"; Cursor;
        Execute sql_mysql_fk_outgoing (Positional [PStr "S"; PStr "T"]); FetchAll;
        Execute sql_mysql_fk_incoming (Positional [PStr "S"; PStr "T"]); FetchAll;
        Close]).
Proof.
  split.
  - apply (naming_hints_only_from_oracle "S" "T" "DWH"
             (quiet_world {[ "DWH_TYPE" := "sqlserver" ]}) []).
    vm_compute. reflexivity.
  - refine (proj1 (proj2 (proj2
      (naming_hints_only_from_oracle "S" "T" "DWH"
         (quiet_world {[ "DWH_TYPE" := "mysql" ]}) []))) _ _ []
      [Connect "mysql" "DWH"; Cursor;
       Execute sql_mysql_fk_outgoing (Positional [PStr "S"; PStr "T"]); FetchAll;
       Execute sql_mysql_fk_incoming (Positional [PStr "S"; PStr "T"]); FetchAll] _);
      vm_compute; reflexivity.
Defined.

(** On Oracle the discovery does produce hints: in [customer_catalog] the
    column [CUSTOMER_ID] of [ORDERS] leads to the table [CUSTOMER]. *)
Example oracle_naming_hint :
  match find_relationships "SALES" "ORDERS" "DWH" customer_catalog [] with
  | (inr r, _) =>
      rel_db_type r = "oracle" ∧
      naming_hints r =
        [Hint "ORDERS" "CUSTOMER_ID" (PStr "SALES") (PStr "CUSTOMER") (PStr "ID") MEDIUM]
  | (inl _, _) => False
  end.
Proof. vm_compute. split; reflexivity. Qed.

Lemma fmap_bind_list {A B C} (f : B → C) (g : A → list B) (l : list A) :
  f <$> (l ≫= g) = l ≫= (λ a, f <$> g a).
Proof.
  induction l as [|a l IH]; [done|].
  cbn. by rewrite fmap_app, IH.
Qed.

Lemma referencing_1_pairs (t1 t2 : string) (cols1 cols2 : gset string) :
  referencing_1 t1 t2 cols1 cols2
    = render t1 t2 <$> (key_on_left <$> referencing t1 cols1 cols2).
Proof.
  unfold referencing_1, referencing. rewrite <- list_fmap_compose.
  rewrite fmap_bind_list. apply list_bind_ext; [|done]. intros fk.
  rewrite fmap_bind_list. apply list_bind_ext; [|done]. intros suffix.
  destruct (_ && _); [|done]. by destruct (_ || _).
Qed.

Lemma referencing_2_pairs (t1 t2 : string) (cols1 cols2 : gset string) :
  referencing_2 t1 t2 cols1 cols2
    = render t1 t2 <$> (key_on_right <$> referencing t2 cols2 cols1).
Proof.
  unfold referencing_2, referencing. rewrite <- list_fmap_compose.
  rewrite fmap_bind_list. apply list_bind_ext; [|done]. intros fk.
  rewrite fmap_bind_list. apply list_bind_ext; [|done]. intros suffix.
  destruct (_ && _); [|done]. by destruct (_ || _).
Qed.

Lemma common_columns_pairs (t1 t2 : string) (cols1 cols2 : gset string) :
  common_columns t1 t2 cols1 cols2 = render t1 t2 <$> common_pairs cols1 cols2.
Proof. unfold common_columns, common_pairs. by rewrite <- list_fmap_compose. Qed.

(** [join_paths] renders the candidate pairs. *)
Lemma join_paths_pairs (t1 t2 : string) (cols1 cols2 : gset string) :
  join_paths t1 t2 cols1 cols2 = render t1 t2 <$> candidate_pairs t1 t2 cols1 cols2.
Proof.
  unfold join_paths, candidate_pairs.
  by rewrite !fmap_app, common_columns_pairs, referencing_1_pairs, referencing_2_pairs.
Qed.

(** Exchanging the tables exchanges the roles in every candidate pair. *)
Lemma candidate_pairs_swapped (t1 t2 : string) (cols1 cols2 : gset string) :
  candidate_pairs t2 t1 cols2 cols1 ≡ₚ swap_roles <$> candidate_pairs t1 t2 cols1 cols2.
Proof.
  unfold candidate_pairs. rewrite !fmap_app.
  assert (swap_roles <$> common_pairs cols1 cols2 = common_pairs cols2 cols1) as ->.
  { unfold common_pairs. rewrite <- list_fmap_compose.
    by rewrite (comm_L (∩) cols1 cols2). }
  assert (swap_roles <$> (key_on_left <$> referencing t1 cols1 cols2)
          = key_on_right <$> referencing t1 cols1 cols2) as ->.
  { by rewrite <- list_fmap_compose. }
  assert (swap_roles <$> (key_on_right <$> referencing t2 cols2 cols1)
          = key_on_left <$> referencing t2 cols2 cols1) as ->.
  { by rewrite <- list_fmap_compose. }
  apply Permutation_app_head, Permutation_app_comm.
Qed.

(** C8.  The candidates for the pair (A, B) are the candidate pairs rendered
    with A on the left and B on the right; the candidates for the pair
    (B, A) are, up to their order, the same pairs with the two roles
    exchanged, rendered with B on the left and A on the right; exchanging
    the roles keeps kind and confidence. *)
Theorem join_paths_symmetric (A B : string) (colsA colsB : gset string) :
  ∃ pairs,
    join_paths A B colsA colsB = render A B <$> pairs ∧
    join_paths B A colsB colsA ≡ₚ render B A <$> (swap_roles <$> pairs) ∧
    ∀ p, pair_kind (swap_roles p) = pair_kind p ∧
         pair_confidence (swap_roles p) = pair_confidence p ∧
         join (render B A (swap_roles p))
           = predicate B (right_column p) A (left_column p).
Proof.
  exists (candidate_pairs A B colsA colsB). split; [apply join_paths_pairs|].
  split; [|done].
  rewrite join_paths_pairs. apply fmap_Permutation, candidate_pairs_swapped.
Qed.

End relationships.

(** ** What the scripts send to the database *)

Section traffic.

Ltac inv_bind H :=
  let a := fresh "a" in
  let tr1 := fresh "tr" in
  let Hm := fresh "Hm" in
  apply bind_inr in H as (a & tr1 & Hm & H).

Ltac inv_finally H :=
  let tr1 := fresh "tr" in
  apply finally_inr in H as (tr1 & H).



















Lemma sends_weaken {A} (P Q : call → Prop) (m : M A) :
  (∀ c, P c → Q c) → sends P m → sends Q m.
Proof.
  intros HPQ Hm w tr. destruct (Hm w tr) as (calls & Htr & Hcalls).
  exists calls. split; [done|]. by eapply Forall_impl.
Qed.






























End traffic.

(** ** More on the plan analyzers *)

Section analyzer_rules.
Import explain_query.










End analyzer_rules.

(** ** More on the relationship resolver *)

Section join_candidates.
Import find_relationships.




End join_candidates.

(** ** Suffixes *)

Section suffixes.
Import find_relationships.













End suffixes.

(** ** Pairs of tables and grouped columns *)

Section table_pairs.
Import find_relationships.

Ltac inv_bind H :=
  let a := fresh "a" in
  let tr1 := fresh "tr" in
  let Hm := fresh "Hm" in
  apply bind_inr in H as (a & tr1 & Hm & H).

Ltac inv_finally H :=
  let tr1 := fresh "tr" in
  apply finally_inr in H as (tr1 & H).









End table_pairs.

(** ** The configured connections *)

Section connections.

Lemma ascii_compare_refl (c : ascii) : Ascii.compare c c = Eq.
Proof. apply N.compare_refl. Qed.

Lemma ascii_compare_trans (c : comparison) (x y z : ascii) :
  Ascii.compare x y = c → Ascii.compare y z = c → Ascii.compare x z = c.
Proof.
  unfold Ascii.compare. destruct c.
  - intros ->%N.compare_eq_iff ->%N.compare_eq_iff. apply N.compare_refl.
  - rewrite !N.compare_lt_iff. lia.
  - rewrite !N.compare_gt_iff. lia.
Qed.

Lemma string_compare_lt_trans (x y z : string) :
  String.compare x y = Lt → String.compare y z = Lt → String.compare x z = Lt.
Proof.
  revert y z. induction x as [|a x IH]; intros [|b y] [|c z]; simpl; try done.
  destruct (Ascii.compare a b) eqn:Hab; [|clear IH|done];
    destruct (Ascii.compare b c) eqn:Hbc; try done.
  - rewrite (ascii_compare_trans Eq a b c) by done. apply IH.
  - apply Ascii.compare_eq_iff in Hab as ->. by rewrite Hbc.
  - apply Ascii.compare_eq_iff in Hbc as <-. by rewrite Hab.
  - by rewrite (ascii_compare_trans Lt a b c).
Qed.

Lemma leb_trans (x y z : string) :
  String.leb x y = true → String.leb y z = true → String.leb x z = true.
Proof.
  unfold String.leb.
  destruct (String.compare x y) eqn:Hxy; [| |done];
    destruct (String.compare y z) eqn:Hyz; try done.
  - apply String.compare_eq_iff in Hxy as ->. by rewrite Hyz.
  - apply String.compare_eq_iff in Hxy as ->. by rewrite Hyz.
  - intros _ _. apply String.compare_eq_iff in Hyz as <-. by rewrite Hxy.
  - intros _ _. by rewrite (string_compare_lt_trans x y z).
Qed.

#[local] Instance by_alias_trans : Transitive by_alias.
Proof. intros x y z. apply leb_trans. Qed.

#[local] Instance by_alias_total : Total by_alias.
Proof. intros x y. apply String.leb_total. Qed.











End connections.

(** ** What the relationship finders return *)

Section resolver_results.
Import find_relationships.

Ltac inv_bind H :=
  let a := fresh "a" in
  let tr1 := fresh "tr" in
  let Hm := fresh "Hm" in
  apply bind_inr in H as (a & tr1 & Hm & H).





End resolver_results.

(** ** The bins of the comment report *)

Section bins.
Import report_missing_column_comments.



End bins.
